(** * transparent-oai-api: the logging relay of [main.go]

    A shallow embedding of the traffic recorder ([RequestLogger],
    [LogRequest], [LogResponse]) and of the relay handler ([ServeHTTP]),
    with the parts of Go's [strings], [fmt], [net/textproto], [net/http]
    and [io] packages that they call.

    Go strings and byte slices are sequences of bytes: both are [string]
    here (a list of 8-bit [ascii]); [string(body)] is the identity.
    Header names are ASCII, as HTTP requires. *)

From Stdlib Require Import List String Ascii ZArith Lia Bool Arith.
From Stdlib Require Import DecimalString.
Import ListNotations.
Local Open Scope list_scope.
Local Open Scope string_scope.

(** ** Strings and formatting *)

(** The newline byte that [fmt.Fprintln] and the ["\n"] of a format end
    a line with. *)
Definition LF : string := String (ascii_of_nat 10) EmptyString.

(** [fmt.Fprintln(&buf, s)] / [fmt.Fprintln(f, s)] for one string operand. *)
Definition Sprintln (s : string) : string := s ++ LF.

(** The verb [%d] on a Go [int] or [int64]. *)
Definition fmt_d (z : Z) : string := NilZero.string_of_int (Z.to_int z).

(** [len(s)] as a Go [int]. *)
Definition len (s : string) : Z := Z.of_nat (String.length s).

Definition lower_byte (c : ascii) : ascii :=
  let n := nat_of_ascii c in
  if (65 <=? n)%nat && (n <=? 90)%nat then ascii_of_nat (n + 32) else c.

Definition upper_byte (c : ascii) : ascii :=
  let n := nat_of_ascii c in
  if (97 <=? n)%nat && (n <=? 122)%nat then ascii_of_nat (n - 32) else c.

(** [strings.ToLower] on ASCII text. *)
Fixpoint ToLower (s : string) : string :=
  match s with
  | EmptyString => EmptyString
  | String c s' => String (lower_byte c) (ToLower s')
  end.

(** [strings.Contains(s, substr)]. *)
Fixpoint Contains (s substr : string) : bool :=
  prefix substr s ||
  match s with
  | EmptyString => false
  | String _ s' => Contains s' substr
  end.

(** [s[:n]] for [n <= len(s)]. *)
Definition slice_to (n : nat) (s : string) : string := substring 0 n s.

(** [s[n:]]. *)
Fixpoint slice_from (n : nat) (s : string) : string :=
  match n, s with
  | O, _ => s
  | S n', String _ s' => slice_from n' s'
  | S _, EmptyString => EmptyString
  end.

(** [strings.HasSuffix(s, suffix)]. *)
Definition HasSuffix (s suffix : string) : bool :=
  (String.length suffix <=? String.length s)%nat &&
  (slice_from (String.length s - String.length suffix) s =? suffix).

(** [strings.Join(parts, "")]. *)
Definition concat_str (parts : list string) : string :=
  fold_right append EmptyString parts.

(** ** net/textproto: canonical header keys *)

Module textproto.

Definition is_digit (n : nat) : bool := (48 <=? n)%nat && (n <=? 57)%nat.
Definition is_upper (n : nat) : bool := (65 <=? n)%nat && (n <=? 90)%nat.
Definition is_lower (n : nat) : bool := (97 <=? n)%nat && (n <=? 122)%nat.

(** The bytes of an RFC 7230 [tchar]. *)
Definition validHeaderFieldByte (c : ascii) : bool :=
  let n := nat_of_ascii c in
  is_digit n || is_upper n || is_lower n ||
  existsb (Nat.eqb n) [33; 35; 36; 37; 38; 39; 42; 43; 45; 46; 94; 95; 96; 124; 126]%nat.

Fixpoint all_valid (s : string) : bool :=
  match s with
  | EmptyString => true
  | String c s' => validHeaderFieldByte c && all_valid s'
  end.

Definition dash : ascii := ascii_of_nat 45.

(** The canonicalising pass: upper case at the start and after each
    dash, lower case elsewhere. *)
Fixpoint canon_from (upper : bool) (s : string) : string :=
  match s with
  | EmptyString => EmptyString
  | String c s' =>
      let c' := if upper then upper_byte c else lower_byte c in
      String c' (canon_from (Ascii.eqb c' dash) s')
  end.

(** [textproto.CanonicalMIMEHeaderKey]: a key with a byte that is not
    valid in a field name is returned unchanged. *)
Definition CanonicalMIMEHeaderKey (s : string) : string :=
  if all_valid s then canon_from true s else s.

End textproto.

(** ** net/http: the header map *)

Module Header.

(** [map[string][]string].  The entries are listed in the order in
    which a [range] over the map visits them; that order is arbitrary
    in Go, and nothing below depends on a particular one. *)
Definition t : Type := list (string * list string).

Fixpoint lookup (key : string) (h : t) : option (list string) :=
  match h with
  | [] => None
  | (k, vs) :: h' => if k =? key then Some vs else lookup key h'
  end.

(** [h[key] = vs]. *)
Fixpoint store (key : string) (vs : list string) (h : t) : t :=
  match h with
  | [] => [(key, vs)]
  | (k, old) :: h' =>
      if k =? key then (k, vs) :: h' else (k, old) :: store key vs h'
  end.

(** [delete(h, key)]. *)
Fixpoint remove (key : string) (h : t) : t :=
  match h with
  | [] => []
  | (k, vs) :: h' => if k =? key then remove key h' else (k, vs) :: remove key h'
  end.

Definition index (key : string) (h : t) : list string :=
  match lookup key h with Some vs => vs | None => [] end.

(** [h.Get(key)]: the first value under the canonical key, or [""]. *)
Definition Get (h : t) (key : string) : string :=
  match index (textproto.CanonicalMIMEHeaderKey key) h with
  | [] => ""
  | v :: _ => v
  end.

(** [h.Set(key, value)]. *)
Definition Set_ (h : t) (key value : string) : t :=
  store (textproto.CanonicalMIMEHeaderKey key) [value] h.

(** [h.Add(key, value)]. *)
Definition Add (h : t) (key value : string) : t :=
  let k := textproto.CanonicalMIMEHeaderKey key in
  store k (index k h ++ [value])%list h.

(** [h.Del(key)]. *)
Definition Del (h : t) (key : string) : t :=
  remove (textproto.CanonicalMIMEHeaderKey key) h.

(** The values of the entries whose name satisfies [p], in iteration
    order. *)
Definition gather (p : string -> bool) (h : t) : list string :=
  List.concat (map snd (filter (fun e => p (fst e)) h)).

(** All values an inbound map carries under names whose canonical form
    is that of [key], in iteration order. *)
Definition carried (h : t) (key : string) : list string :=
  gather (fun name => textproto.CanonicalMIMEHeaderKey name
                      =? textproto.CanonicalMIMEHeaderKey key) h.

End Header.

(** ** io: readers *)

Module Reader.

(** What a read ends with: [io.EOF] or another error. *)
Inductive error := EOF | Failure (msg : string).

(** An [io.ReadCloser] as the sequence of segments in which its bytes
    arrive, and the error that follows the last one. *)
Record t := { pending : list string; final : error }.

(** [n, err := b.Read(buf)] with [len(buf) = k]: the bytes read, the
    error, and the reader afterwards. *)
Definition Read (k : nat) (b : t) : string * option error * t :=
  match pending b with
  | [] => (EmptyString, Some (final b), b)
  | c :: rest =>
      if (String.length c <=? k)%nat
      then (c, None, {| pending := rest; final := final b |})
      else (slice_to k c, None,
            {| pending := slice_from k c :: rest; final := final b |})
  end.

(** [io.ReadAll(b)]: everything up to the end, and the error unless it
    is [io.EOF]. *)
Definition ReadAll (b : t) : string * option string :=
  (concat_str (pending b),
   match final b with EOF => None | Failure msg => Some msg end).

(** [io.NopCloser(bytes.NewBuffer(data))]. *)
Definition of_bytes (data : string) : t :=
  {| pending := match data with EmptyString => [] | _ => [data] end;
     final := EOF |}.

(** The number of [Read] calls with a non-empty buffer that the reader
    can still answer without reporting its final error is below this. *)
Definition size (b : t) : nat :=
  fold_right (fun c n => S (String.length c) + n)%nat O (pending b).

End Reader.

(** ** The data of [main.go] *)

Module Config.
Record t := {
  Port : string;
  OpenAIBaseURL : string;
  OpenAIAPIKey : string;
  LogRequests : bool;
  LogResponses : bool;
  LogToStdout : bool;
  RequestLogFile : string
}.
End Config.

Module RequestLogger.
(** [LogFile] is [nil] ([None]) or the file opened at the given path. *)
Record t := {
  LogFile : option string;
  LogToFile : bool;
  LogToStdout : bool
}.
End RequestLogger.

Module ProxyServer.
Record t := {
  Config : Config.t;
  Logger : RequestLogger.t
}.
End ProxyServer.

(** The fields of the inbound [*http.Request] that the handler reads. *)
Module Request.
Record t := {
  Method : string;
  Path : string;        (* r.URL.Path *)
  RawQuery : string;    (* r.URL.RawQuery *)
  Proto : string;
  Header : Header.t;
  Body : option Reader.t
}.
End Request.

(** The outbound request that [http.NewRequest] builds and [client.Do]
    sends. *)
Module ProxyReq.
Record t := {
  Method : string;
  URL : string;
  Header : Header.t;
  Body : string
}.
End ProxyReq.

(** The fields of the upstream [*http.Response] that the handler reads. *)
Module Response.
Record t := {
  Proto : string;
  Status : string;
  StatusCode : Z;
  Header : Header.t;
  Body : Reader.t
}.
End Response.

(** ** net/http: the response writer *)

Module ResponseWriter.

(** [header] is the live map that [w.Header()] returns.  [committed] is
    the status code and the headers sent to the client by the first
    [WriteHeader]; [body] is the bytes the client has received;
    [room] is how many more bytes the client connection accepts before
    writes to it fail ([None]: it never fails); [flusher] tells whether
    the writer implements [http.Flusher]. *)
Record t := {
  header : Header.t;
  committed : option (Z * Header.t);
  body : string;
  flushes : nat;
  flusher : bool;
  room : option nat
}.

Definition with_header (h : Header.t) (w : t) : t :=
  {| header := h; committed := committed w; body := body w;
     flushes := flushes w; flusher := flusher w; room := room w |}.

(** [w.WriteHeader(code)]: only the first call sends a status line. *)
Definition WriteHeader (code : Z) (w : t) : t :=
  match committed w with
  | Some _ => w
  | None =>
      {| header := header w; committed := Some (code, header w);
         body := body w; flushes := flushes w; flusher := flusher w;
         room := room w |}
  end.

(** [_, err := w.Write(data)]: the writer and whether [err == nil]. *)
Definition Write (data : string) (w : t) : t * bool :=
  let w := WriteHeader 200 w in
  match room w with
  | None =>
      ({| header := header w; committed := committed w;
          body := body w ++ data; flushes := flushes w;
          flusher := flusher w; room := None |}, true)
  | Some n =>
      if (String.length data <=? n)%nat
      then ({| header := header w; committed := committed w;
               body := body w ++ data; flushes := flushes w;
               flusher := flusher w;
               room := Some (n - String.length data)%nat |}, true)
      else ({| header := header w; committed := committed w;
               body := body w ++ slice_to n data; flushes := flushes w;
               flusher := flusher w; room := Some O |}, false)
  end.

(** [flusher.Flush()]. *)
Definition Flush (w : t) : t :=
  let w := WriteHeader 200 w in
  {| header := header w; committed := committed w; body := body w;
     flushes := S (flushes w); flusher := flusher w; room := room w |}.

(** What the client observes: status, headers, body. *)
Definition client_view (w : t) : option (Z * Header.t) * string :=
  (committed w, body w).

(** A writer on which nothing has been done yet. *)
Definition fresh (can_flush : bool) (limit : option nat) : t :=
  {| header := []; committed := None; body := EmptyString; flushes := O;
     flusher := can_flush; room := limit |}.

End ResponseWriter.

Definition StatusInternalServerError : Z := 500.
Definition StatusBadGateway : Z := 502.

(** [http.Error(w, error, code)]. *)
Definition http_Error (w : ResponseWriter.t) (error : string) (code : Z)
  : ResponseWriter.t :=
  let h := ResponseWriter.header w in
  let h := Header.Del h "Content-Length" in
  let h := Header.Set_ h "Content-Type" "text/plain; charset=utf-8" in
  let h := Header.Set_ h "X-Content-Type-Options" "nosniff" in
  let w := ResponseWriter.with_header h w in
  let w := ResponseWriter.WriteHeader code w in
  fst (ResponseWriter.Write (Sprintln error) w).

(** [io.Copy(w, src)]: the bytes of [src] up to its end go to [w], as far
    as [w] accepts them. *)
Definition io_Copy (w : ResponseWriter.t) (src : Reader.t) : ResponseWriter.t :=
  match concat_str (Reader.pending src) with
  | EmptyString => w
  | data => fst (ResponseWriter.Write data w)
  end.

(** ** The environment of one call *)

(** A reading of [time.Now()]: its [Format(time.RFC3339)] and its
    [UnixNano()]. *)
Record Time := { RFC3339 : string; UnixNano : Z }.

(** What the handler does not decide itself: the successive readings of
    the clock, whether [http.NewRequest] accepts a method and a URL
    ([Some] is its error text), and what [client.Do] answers ([inl] is
    the transport error text). *)
Record Env := {
  now : nat -> Time;
  NewRequest_error : string -> string -> option string;
  Do : ProxyReq.t -> string + Response.t
}.

Inductive Sink := SinkFile | SinkStdout.

(** What a call does outside the response writer.  [EvWrite] is one
    [Write] call on a sink with all the bytes given; [EvLock] and
    [EvUnlock] are [Lock] and [Unlock] on a mutex guarding the sink;
    [EvDo] is the dispatch of the outbound request; [EvPrintf] is a line
    on the server's own [log]. *)
Inductive Event :=
| EvWrite (s : Sink) (data : string)
| EvLock (s : Sink)
| EvUnlock (s : Sink)
| EvDo (req : ProxyReq.t)
| EvPrintf (msg : string).

(** The clock readings consumed so far and the events so far, oldest
    first. *)
Record World := { tick : nat; events : list Event }.

Definition advance (wd : World) : World :=
  {| tick := S (tick wd); events := events wd |}.

Definition emit (evs : list Event) (wd : World) : World :=
  {| tick := tick wd; events := (events wd ++ evs)%list |}.

Definition start : World := {| tick := O; events := [] |}.

(** ** The traffic recorder *)

(** [NewRequestLogger]; [opens] tells whether [os.OpenFile] succeeds. *)
Definition NewRequestLogger (opens : string -> bool) (logFile : string)
  (logToStdout : bool) : option RequestLogger.t :=
  if logFile =? "" then
    Some {| RequestLogger.LogFile := None;
            RequestLogger.LogToFile := false;
            RequestLogger.LogToStdout := logToStdout |}
  else if opens logFile then
    Some {| RequestLogger.LogFile := Some logFile;
            RequestLogger.LogToFile := true;
            RequestLogger.LogToStdout := logToStdout |}
  else None.

(** The lines of one header of a request. *)
Definition request_header_lines (e : string * list string) : string :=
  let (name, values) := e in
  if ToLower name =? "authorization" then
    "  " ++ name ++ ": Bearer [REDACTED]" ++ LF
  else
    concat_str (map (fun value => "  " ++ name ++ ": " ++ value ++ LF) values).

(** The lines of one header of a response. *)
Definition response_header_lines (e : string * list string) : string :=
  let (name, values) := e in
  concat_str (map (fun value => "  " ++ name ++ ": " ++ value ++ LF) values).

(** The body section that [LogRequest] appends. *)
Definition request_body_section (body : string) : string :=
  if (0 <? len body)%Z then Sprintln "Body:" ++ Sprintln body
  else EmptyString.

Definition maxBodySize : Z := 10000.

(** The body section that [LogResponse] appends. *)
Definition response_body_section (body : string) : string :=
  if (0 <? len body)%Z then
    let bodyToLog :=
      if (maxBodySize <? len body)%Z then slice_to (Z.to_nat maxBodySize) body
      else body in
    (if (maxBodySize <? len body)%Z
     then "Body (truncated to " ++ fmt_d maxBodySize ++ " bytes):" ++ LF
     else Sprintln "Body:")
    ++ Sprintln bodyToLog
    ++ (if (maxBodySize <? len body)%Z
        then "... [" ++ fmt_d (len body - maxBodySize) ++ " more bytes]" ++ LF
        else EmptyString)
  else EmptyString.

(** [buf.String()] at the end of [LogRequest]. *)
Definition request_record (reqID timestamp : string) (r : Request.t)
  (body : string) : string :=
  "==== REQUEST [" ++ reqID ++ "] " ++ timestamp ++ " ====" ++ LF
  ++ Request.Method r ++ " " ++ Request.Path r ++ " " ++ Request.Proto r ++ LF
  ++ Sprintln "Headers:"
  ++ concat_str (map request_header_lines (Request.Header r))
  ++ request_body_section body.

(** [buf.String()] at the end of [LogResponse]. *)
Definition response_record (reqID timestamp : string) (resp : Response.t)
  (body : string) : string :=
  "==== RESPONSE [" ++ reqID ++ "] " ++ timestamp ++ " ====" ++ LF
  ++ Response.Proto resp ++ " " ++ Response.Status resp ++ LF
  ++ Sprintln "Headers:"
  ++ concat_str (map response_header_lines (Response.Header resp))
  ++ response_body_section body.

(** The writes of [logData] to the sinks, file first. *)
Definition sink_writes (l : RequestLogger.t) (logData : string) : list Event :=
  ((if RequestLogger.LogToFile l &&
       match RequestLogger.LogFile l with Some _ => true | None => false end
    then [EvWrite SinkFile (Sprintln logData)] else [])
   ++
   (if RequestLogger.LogToStdout l
    then [EvWrite SinkStdout logData] else []))%list.

Section Recorder.

Variable env : Env.

(** [l.LogRequest(r, body)]. *)
Definition LogRequest (l : RequestLogger.t) (r : Request.t) (body : string)
  (wd : World) : World :=
  let timestamp := RFC3339 (now env (tick wd)) in
  let wd := advance wd in
  let reqID := Header.Get (Request.Header r) "X-Request-ID" in
  let '(reqID, wd) :=
    if reqID =? "" then
      ("req-" ++ fmt_d (UnixNano (now env (tick wd))), advance wd)
    else (reqID, wd) in
  let logData := request_record reqID timestamp r body in
  emit (sink_writes l logData) wd.

(** [l.LogResponse(reqID, resp, body)]. *)
Definition LogResponse (l : RequestLogger.t) (reqID : string)
  (resp : Response.t) (body : string) (wd : World) : World :=
  let timestamp := RFC3339 (now env (tick wd)) in
  let wd := advance wd in
  let logData := response_record reqID timestamp resp body in
  emit (sink_writes l logData) wd.

End Recorder.

(** ** The relay handler *)

(** [for name, values := range src { for _, value := range values {
    dst.Add(name, value) } }], skipping the names for which [skip]
    holds. *)
Definition copy_headers (skip : string -> bool) (src dst : Header.t) : Header.t :=
  fold_left
    (fun (dst : Header.t) (e : string * list string) =>
       let (name, values) := e in
       if skip name then dst
       else fold_left (fun dst value => Header.Add dst name value) values dst)
    src dst.

Definition is_host (name : string) : bool := ToLower name =? "host".

(** The classification of the upstream response. *)
Definition isStreaming (resp : Response.t) : bool :=
  Contains (Header.Get (Response.Header resp) "Content-Type") "text/event-stream".

(** The correlation id of a request, and whether it has to be
    synthesised. *)
Definition with_request_header (h : Header.t) (r : Request.t) : Request.t :=
  {| Request.Method := Request.Method r; Request.Path := Request.Path r;
     Request.RawQuery := Request.RawQuery r; Request.Proto := Request.Proto r;
     Request.Header := h; Request.Body := Request.Body r |}.

Definition with_request_body (b : option Reader.t) (r : Request.t) : Request.t :=
  {| Request.Method := Request.Method r; Request.Path := Request.Path r;
     Request.RawQuery := Request.RawQuery r; Request.Proto := Request.Proto r;
     Request.Header := Request.Header r; Request.Body := b |}.

Definition bufferSize : nat := 4096.

Section Handler.

Variable env : Env.
Variable s : ProxyServer.t.

(** The [for] loop of the streaming branch with response logging; [None]
    when [fuel] iterations were not enough to leave it.  The text of
    [writeErr] is not part of the model, so the server log line stops at
    the colon. *)
Fixpoint stream_loop (fuel : nat) (reqID : string) (resp : Response.t)
  (src : Reader.t) (w : ResponseWriter.t) (wd : World)
  : option (ResponseWriter.t * World) :=
  match fuel with
  | O => None
  | S fuel' =>
      let '(chunk, err, src') := Reader.Read bufferSize src in
      let after_chunk : (ResponseWriter.t * World) + (ResponseWriter.t * World) :=
        if (0 <? String.length chunk)%nat then
          let (w1, ok) := ResponseWriter.Write chunk w in
          if ok then
            inr (ResponseWriter.Flush w1,
                 LogResponse env (ProxyServer.Logger s) reqID resp chunk wd)
          else inl (w1, emit [EvPrintf "Error writing response chunk: "] wd)
        else inr (w, wd) in
      match after_chunk with
      | inl stopped => Some stopped
      | inr (w, wd) =>
          match err with
          | Some Reader.EOF => Some (w, wd)
          | Some (Reader.Failure msg) =>
              Some (w, emit [EvPrintf ("Error reading response body: " ++ msg)] wd)
          | None => stream_loop fuel' reqID resp src' w wd
          end
      end
  end.

(** The streaming branch, lines 257-287. *)
Definition relay_stream (reqID : string) (resp : Response.t)
  (w : ResponseWriter.t) (wd : World) : ResponseWriter.t * World :=
  if Config.LogResponses (ProxyServer.Config s) then
    if negb (ResponseWriter.flusher w) then
      (http_Error w "Streaming not supported" StatusInternalServerError, wd)
    else
      match stream_loop (S (Reader.size (Response.Body resp))) reqID resp
              (Response.Body resp) w wd with
      | Some done => done
      | None => (w, wd)
      end
  else (io_Copy w (Response.Body resp), wd).

(** The buffered branch, lines 288-302. *)
Definition relay_buffered (reqID : string) (resp : Response.t)
  (w : ResponseWriter.t) (wd : World) : ResponseWriter.t * World :=
  match Reader.ReadAll (Response.Body resp) with
  | (_, Some err) =>
      (http_Error w "Error reading response from OpenAI API"
         StatusInternalServerError,
       emit [EvPrintf ("Error reading response body: " ++ err)] wd)
  | (responseBody, None) =>
      let wd :=
        if Config.LogResponses (ProxyServer.Config s)
        then LogResponse env (ProxyServer.Logger s) reqID resp responseBody wd
        else wd in
      (fst (ResponseWriter.Write responseBody w), wd)
  end.

(** From the upstream response to the end of the handler, lines 244-302. *)
Definition relay_response (reqID : string) (resp : Response.t)
  (w : ResponseWriter.t) (wd : World) : ResponseWriter.t * World :=
  let w :=
    ResponseWriter.with_header
      (copy_headers (fun _ => false) (Response.Header resp)
         (ResponseWriter.header w)) w in
  let w := ResponseWriter.WriteHeader (Response.StatusCode resp) w in
  if isStreaming resp then relay_stream reqID resp w wd
  else relay_buffered reqID resp w wd.

(** The outbound request of lines 204-229, or the error of
    [http.NewRequest]. *)
Definition build_proxy_request (r : Request.t) (bodyBytes : string)
  : string + ProxyReq.t :=
  let targetURL := Config.OpenAIBaseURL (ProxyServer.Config s) ++ Request.Path r in
  let targetURL :=
    if negb (Request.RawQuery r =? "")
    then targetURL ++ "?" ++ Request.RawQuery r else targetURL in
  match NewRequest_error env (Request.Method r) targetURL with
  | Some err => inl err
  | None =>
      let header := copy_headers is_host (Request.Header r) [] in
      let header :=
        if (Header.Get header "Authorization" =? "")
           && negb (Config.OpenAIAPIKey (ProxyServer.Config s) =? "")
        then Header.Set_ header "Authorization"
               ("Bearer " ++ Config.OpenAIAPIKey (ProxyServer.Config s))
        else header in
      inr {| ProxyReq.Method := Request.Method r; ProxyReq.URL := targetURL;
             ProxyReq.Header := header; ProxyReq.Body := bodyBytes |}
  end.

(** Lines 178-183: the correlation id, and the request with the
    synthesised id set on it. *)
Definition assign_request_id (r : Request.t) (wd : World)
  : string * Request.t * World :=
  let reqID := Header.Get (Request.Header r) "X-Request-ID" in
  if reqID =? "" then
    let reqID := "req-" ++ fmt_d (UnixNano (now env (tick wd))) in
    (reqID,
     with_request_header (Header.Set_ (Request.Header r) "X-Request-ID" reqID) r,
     advance wd)
  else (reqID, r, wd).

(** Lines 185-197: the buffered body and the request with its body put
    back, or [None] when reading fails. *)
Definition read_request_body (r : Request.t) : option (string * Request.t) :=
  match Request.Body r with
  | None => Some (EmptyString, r)
  | Some b =>
      match Reader.ReadAll b with
      | (_, Some _) => None
      | (bodyBytes, None) =>
          Some (bodyBytes, with_request_body (Some (Reader.of_bytes bodyBytes)) r)
      end
  end.

(** [s.ServeHTTP(w, r)]. *)
Definition ServeHTTP (w : ResponseWriter.t) (r : Request.t) (wd : World)
  : ResponseWriter.t * World :=
  let '(reqID, r, wd) := assign_request_id r wd in
  match read_request_body r with
  | None =>
      (http_Error w "Error reading request body" StatusInternalServerError, wd)
  | Some (bodyBytes, r) =>
      let wd :=
        if Config.LogRequests (ProxyServer.Config s)
        then LogRequest env (ProxyServer.Logger s) r bodyBytes wd else wd in
      match build_proxy_request r bodyBytes with
      | inl err =>
          (http_Error w ("Error creating proxy request: " ++ err)
             StatusInternalServerError, wd)
      | inr proxyReq =>
          let wd := emit [EvDo proxyReq] wd in
          match Do env proxyReq with
          | inl err =>
              (http_Error w ("Error forwarding request to OpenAI API: " ++ err)
                 StatusBadGateway, wd)
          | inr resp => relay_response reqID resp w wd
          end
      end
  end.

End Handler.

(** [NewProxyServer(config)]. *)
Definition NewProxyServer (opens : string -> bool) (config : Config.t)
  : option ProxyServer.t :=
  match NewRequestLogger opens (Config.RequestLogFile config)
          (Config.LogToStdout config) with
  | None => None
  | Some logger =>
      Some {| ProxyServer.Config := config; ProxyServer.Logger := logger |}
  end.

(** ** Observations on a run *)

(** The outbound requests handed to [client.Do]. *)
Definition dispatched (evs : list Event) : list ProxyReq.t :=
  flat_map (fun ev => match ev with EvDo q => [q] | _ => [] end) evs.

(** The data of the write calls on any sink. *)
Definition records (evs : list Event) : list (Sink * string) :=
  flat_map (fun ev => match ev with EvWrite k d => [(k, d)] | _ => [] end) evs.

(** What a sink holds after the events: the data of its write calls, in
    order. *)
Definition sink_content (k : Sink) (evs : list Event) : string :=
  concat_str
    (flat_map
       (fun ev =>
          match ev with
          | EvWrite SinkFile d =>
              match k with SinkFile => [d] | SinkStdout => [] end
          | EvWrite SinkStdout d =>
              match k with SinkStdout => [d] | SinkFile => [] end
          | _ => []
          end) evs).

(** ** Configuration *)

(** [strings.TrimSuffix(s, suffix)]. *)
Definition TrimSuffix (s suffix : string) : string :=
  if HasSuffix s suffix
  then slice_to (String.length s - String.length suffix) s
  else s.

(** [strconv.ParseBool(str)]; [None] is its syntax error. *)
Definition ParseBool (str : string) : option bool :=
  if (str =? "1") || (str =? "t") || (str =? "T") || (str =? "TRUE")
     || (str =? "true") || (str =? "True") then Some true
  else if (str =? "0") || (str =? "f") || (str =? "F") || (str =? "FALSE")
          || (str =? "false") || (str =? "False") then Some false
  else None.

(** The verb [%v] on a [bool]. *)
Definition fmt_v_bool (b : bool) : string := if b then "true" else "false".

(** The closure [parseBool] of [loadConfig]: the value, and the lines
    it puts on the server log.  [getenv] is [os.Getenv] after
    [godotenv.Load()]. *)
Definition parseBool (getenv : string -> string) (envVar : string)
  (defaultVal : bool) : bool * list Event :=
  let val := getenv envVar in
  if val =? "" then (defaultVal, [])
  else
    match ParseBool val with
    | None =>
        (defaultVal,
         [EvPrintf ("Warning: Invalid value for " ++ envVar
                    ++ ", using default: " ++ fmt_v_bool defaultVal)])
    | Some boolVal => (boolVal, [])
    end.

(** The defaults at the end of [loadConfig], the same in both files. *)
Definition set_defaults (config : Config.t) : Config.t :=
  {| Config.Port :=
       if Config.Port config =? "" then "8080" else Config.Port config;
     Config.OpenAIBaseURL :=
       if Config.OpenAIBaseURL config =? "" then "https://api.openai.com/v1"
       else TrimSuffix (Config.OpenAIBaseURL config) "/";
     Config.OpenAIAPIKey := Config.OpenAIAPIKey config;
     Config.LogRequests := Config.LogRequests config;
     Config.LogResponses := Config.LogResponses config;
     Config.LogToStdout := Config.LogToStdout config;
     Config.RequestLogFile := Config.RequestLogFile config |}.

(** [loadConfig] of [main.go]: the environment alone. *)
Module EnvConfig.

Definition loadConfig (getenv : string -> string) : Config.t * list Event :=
  let '(logRequests, warn1) := parseBool getenv "LOG_REQUESTS" true in
  let '(logResponses, warn2) := parseBool getenv "LOG_RESPONSES" true in
  let '(logToStdout, warn3) := parseBool getenv "LOG_TO_STDOUT" true in
  let config :=
    {| Config.Port := getenv "PORT";
       Config.OpenAIBaseURL := getenv "OPENAI_BASE_URL";
       Config.OpenAIAPIKey := getenv "OPENAI_API_KEY";
       Config.LogRequests := logRequests;
       Config.LogResponses := logResponses;
       Config.LogToStdout := logToStdout;
       Config.RequestLogFile := getenv "REQUEST_LOG_FILE" |} in
  (set_defaults config, (warn1 ++ warn2 ++ warn3)%list).

End EnvConfig.

(** The package [flag]: the variables bound to the registered flags,
    and the names of the flags that have been set ([actual]). *)
Module flag.

Record FlagSet := {
  port : string;        (* -port, -p *)
  url : string;         (* -url, -u *)
  key : string;         (* -key, -k *)
  req : bool;           (* -req, -r *)
  resp : bool;          (* -resp, -s *)
  stdout : bool;        (* -stdout, -o *)
  file : string;        (* -file, -f *)
  actual : list string
}.

(** After the [StringVar] and [BoolVar] calls: the default values, and
    no flag set. *)
Definition registered : FlagSet :=
  {| port := ""; url := ""; key := ""; req := true; resp := true;
     stdout := true; file := ""; actual := [] |}.

(** [flag.Visit(fn)]: [fn] is called for every flag that has been set;
    the closure of [loadConfig] sets one boolean, so the result is
    whether any flag was visited. *)
Definition Visit (fs : FlagSet) : bool :=
  existsb (fun _ => true) (actual fs).

End flag.

(** [loadConfig] of the second file: command-line flags and the
    environment.  [parsed] is the flag set that [flag.Parse()] leaves;
    [flag.Visit] runs on the flag set before it. *)
Module FlagConfig.

Definition loadConfig (parsed : flag.FlagSet) (getenv : string -> string)
  : Config.t * list Event :=
  let flagsSet := flag.Visit flag.registered in
  let port := flag.port parsed in
  let port :=
    if negb (getenv "PORT" =? "") && (port =? "") then getenv "PORT" else port in
  let url := flag.url parsed in
  let url :=
    if negb (getenv "OPENAI_BASE_URL" =? "") && (url =? "")
    then getenv "OPENAI_BASE_URL" else url in
  let key := flag.key parsed in
  let key :=
    if negb (getenv "OPENAI_API_KEY" =? "") && (key =? "")
    then getenv "OPENAI_API_KEY" else key in
  let '(logRequests, logResponses, logToStdout, warnings) :=
    if negb flagsSet then
      let '(a, warn1) := parseBool getenv "LOG_REQUESTS" (flag.req parsed) in
      let '(b, warn2) := parseBool getenv "LOG_RESPONSES" (flag.resp parsed) in
      let '(c, warn3) := parseBool getenv "LOG_TO_STDOUT" (flag.stdout parsed) in
      (a, b, c, (warn1 ++ warn2 ++ warn3)%list)
    else (flag.req parsed, flag.resp parsed, flag.stdout parsed, []) in
  let file := flag.file parsed in
  let file :=
    if negb (getenv "REQUEST_LOG_FILE" =? "") && (file =? "")
    then getenv "REQUEST_LOG_FILE" else file in
  (set_defaults
     {| Config.Port := port; Config.OpenAIBaseURL := url;
        Config.OpenAIAPIKey := key; Config.LogRequests := logRequests;
        Config.LogResponses := logResponses; Config.LogToStdout := logToStdout;
        Config.RequestLogFile := file |},
   warnings).

End FlagConfig.

(** The target of lines 205-208. *)
Definition targetURL (s : ProxyServer.t) (r : Request.t) : string :=
  let target := Config.OpenAIBaseURL (ProxyServer.Config s) ++ Request.Path r in
  if negb (Request.RawQuery r =? "")
  then target ++ "?" ++ Request.RawQuery r else target.

(** The world after the request is recorded, lines 199-202. *)
Definition after_request_log (env : Env) (s : ProxyServer.t) (r : Request.t)
  (bodyBytes : string) (wd : World) : World :=
  if Config.LogRequests (ProxyServer.Config s)
  then LogRequest env (ProxyServer.Logger s) r bodyBytes wd else wd.

(** The names of a header map. *)
Definition names (h : Header.t) : list string := map fst h.


(** An event of the relay of a response: a write of a response record
    with id [id] to a sink of [l], of a chunk that fits the buffer when
    the response is a stream; or a line on the server log. *)
Definition relay_event (l : RequestLogger.t) (id : string) (resp : Response.t)
  (ev : Event) : Prop :=
  match ev with
  | EvWrite _ _ =>
      exists ts body,
        In ev (sink_writes l (response_record id ts resp body)) /\
        (isStreaming resp = true ->
         (0 < String.length body <= bufferSize)%nat)
  | EvPrintf _ => True
  | _ => False
  end.

(** A server that differs from [s] in the upstream credential only. *)
Definition with_key (key : string) (s : ProxyServer.t) : ProxyServer.t :=
  {| ProxyServer.Config :=
       {| Config.Port := Config.Port (ProxyServer.Config s);
          Config.OpenAIBaseURL := Config.OpenAIBaseURL (ProxyServer.Config s);
          Config.OpenAIAPIKey := key;
          Config.LogRequests := Config.LogRequests (ProxyServer.Config s);
          Config.LogResponses := Config.LogResponses (ProxyServer.Config s);
          Config.LogToStdout := Config.LogToStdout (ProxyServer.Config s);
          Config.RequestLogFile := Config.RequestLogFile (ProxyServer.Config s) |};
     ProxyServer.Logger := ProxyServer.Logger s |}.

(** ** The vocabulary of the properties *)

(** The data of a sink write is a request record, or a response record,
    whose delimiter line carries [id]; on the file sink the record is
    followed by a newline. *)
Definition is_request_record (id data : string) : Prop :=
  exists ts r body,
    data = request_record id ts r body \/
    data = Sprintln (request_record id ts r body).

Definition is_response_record (id data : string) : Prop :=
  exists ts resp body,
    data = response_record id ts resp body \/
    data = Sprintln (response_record id ts resp body).


(** The events of the recorder and of the relay of a response: records
    that carry [id], and lines on the server log. *)
Definition logged (id : string) (ev : Event) : Prop :=
  match ev with
  | EvWrite _ data => is_request_record id data \/ is_response_record id data
  | EvPrintf _ => True
  | _ => False
  end.

(** The header of the outbound request, from the inbound one: the copy
    without [Host], then the credential under the guard of line 227. *)
Definition outbound_header (key : string) (h : Header.t) : Header.t :=
  let copied := copy_headers is_host h [] in
  if (Header.Get copied "Authorization" =? "") && negb (key =? "")
  then Header.Set_ copied "Authorization" ("Bearer " ++ key)
  else copied.

Module Sample.

Definition clock (n : nat) : Time :=
  {| RFC3339 := "2024-05-01T12:00:00Z";
     UnixNano := 1714564800000000000 + Z.of_nat n |}.

Definition json : Response.t :=
  {| Response.Proto := "HTTP/1.1"; Response.Status := "200 OK";
     Response.StatusCode := 200;
     Response.Header := [("Content-Type", ["application/json"])];
     Response.Body := {| Reader.pending := ["{}"]; Reader.final := Reader.EOF |} |}.

Definition sse : Response.t :=
  {| Response.Proto := "HTTP/1.1"; Response.Status := "200 OK";
     Response.StatusCode := 200;
     Response.Header := [("Content-Type", ["text/event-stream"])];
     Response.Body := {| Reader.pending := ["data: a"; "data: b"];
                         Reader.final := Reader.EOF |} |}.



Definition env_of (resp : Response.t) : Env :=
  {| now := clock; NewRequest_error := fun _ _ => None;
     Do := fun _ => inr resp |}.

Definition config (logging : bool) : Config.t :=
  {| Config.Port := "8080";
     Config.OpenAIBaseURL := "https://api.openai.com/v1";
     Config.OpenAIAPIKey := "sk-test";
     Config.LogRequests := logging; Config.LogResponses := logging;
     Config.LogToStdout := true; Config.RequestLogFile := "proxy.log" |}.

Definition logger : RequestLogger.t :=
  {| RequestLogger.LogFile := Some "proxy.log";
     RequestLogger.LogToFile := true; RequestLogger.LogToStdout := true |}.

Definition server (logging : bool) : ProxyServer.t :=
  {| ProxyServer.Config := config logging; ProxyServer.Logger := logger |}.

Definition request (h : Header.t) : Request.t :=
  {| Request.Method := "POST"; Request.Path := "/chat/completions";
     Request.RawQuery := ""; Request.Proto := "HTTP/1.1";
     Request.Header := h; Request.Body := Some (Reader.of_bytes "{}") |}.

(** The outbound request of the sample server for inbound headers [h]
    that have no correlation id. *)
Definition outbound (h : Header.t) : ProxyReq.t :=
  {| ProxyReq.Method := "POST";
     ProxyReq.URL := "https://api.openai.com/v1/chat/completions";
     ProxyReq.Header :=
       outbound_header "sk-test"
         (Header.Set_ h "X-Request-ID" "req-1714564800000000000");
     ProxyReq.Body := "{}" |}.

End Sample.

(** C1 as the specification words it, for one call: without an inbound
    [Authorization] entry and with a credential, the outbound request
    has exactly the bearer credential; with an inbound [Authorization]
    entry, the outbound request has that entry's values. *)
Definition credential_rule_as_stated (env : Env) (s : ProxyServer.t)
  (w : ResponseWriter.t) (r : Request.t) : Prop :=
  forall q,
    In (EvDo q) (events (snd (ServeHTTP env s w r start))) ->
    match Header.lookup "Authorization" (Request.Header r) with
    | None =>
        Config.OpenAIAPIKey (ProxyServer.Config s) <> "" ->
        Header.lookup "Authorization" (ProxyReq.Header q) =
        Some ["Bearer " ++ Config.OpenAIAPIKey (ProxyServer.Config s)]
    | Some vs => Header.lookup "Authorization" (ProxyReq.Header q) = Some vs
    end.


(** The data ends with an empty line. *)
Definition ends_with_blank_line (data : string) : bool :=
  HasSuffix data (LF ++ LF).

(** Empty, or ending with a newline. *)
Definition closed (a : string) : Prop := a = "" \/ exists p, a = p ++ LF.

(** What the client has after [data] is offered to a writer: all of it,
    or as much as the connection still accepts. *)
Definition deliver (w : ResponseWriter.t) (data : string) : string :=
  match ResponseWriter.room w with
  | None => ResponseWriter.body w ++ data
  | Some n => ResponseWriter.body w ++ slice_to n data
  end.

Definition with_logging (b : bool) (s : ProxyServer.t) : ProxyServer.t :=
  {| ProxyServer.Config :=
       {| Config.Port := Config.Port (ProxyServer.Config s);
          Config.OpenAIBaseURL := Config.OpenAIBaseURL (ProxyServer.Config s);
          Config.OpenAIAPIKey := Config.OpenAIAPIKey (ProxyServer.Config s);
          Config.LogRequests := b;
          Config.LogResponses := b;
          Config.LogToStdout := Config.LogToStdout (ProxyServer.Config s);
          Config.RequestLogFile := Config.RequestLogFile (ProxyServer.Config s) |};
     ProxyServer.Logger := ProxyServer.Logger s |}.

(** C6 as the specification words it, for one call: what the client
    observes is the same with both logging toggles on and with both
    off. *)
Definition logging_transparent_as_stated (env : Env) (s : ProxyServer.t)
  (w : ResponseWriter.t) (r : Request.t) (wd : World) : Prop :=
  ResponseWriter.client_view (fst (ServeHTTP env (with_logging true s) w r wd)) =
  ResponseWriter.client_view (fst (ServeHTTP env (with_logging false s) w r wd)).

Definition sink_eqb (j k : Sink) : bool :=
  match j, k with
  | SinkFile, SinkFile | SinkStdout, SinkStdout => true
  | _, _ => false
  end.

(** Every write to a sink happens while the lock of that sink is held:
    after an [EvLock] of the sink and before its [EvUnlock]. *)
Fixpoint guarded (held : Sink -> bool) (evs : list Event) : bool :=
  match evs with
  | [] => true
  | EvLock k :: evs' => guarded (fun j => sink_eqb j k || held j) evs'
  | EvUnlock k :: evs' => guarded (fun j => negb (sink_eqb j k) && held j) evs'
  | EvWrite k _ :: evs' => held k && guarded held evs'
  | _ :: evs' => guarded held evs'
  end.

Definition writes_under_lock (evs : list Event) : bool :=
  guarded (fun _ => false) evs.

(** A call of the recorder: [LogRequest(r, body)] or
    [LogResponse(reqID, resp, body)]. *)
Inductive LogCall :=
| CallRequest (r : Request.t) (body : string)
| CallResponse (reqID : string) (resp : Response.t) (body : string).

(** The events of one call that starts at clock reading [t]. *)
Definition call_events (env : Env) (l : RequestLogger.t) (c : LogCall) (t : nat)
  : list Event :=
  events
    (match c with
     | CallRequest r body => LogRequest env l r body {| tick := t; events := [] |}
     | CallResponse reqID resp body =>
         LogResponse env l reqID resp body {| tick := t; events := [] |}
     end).

Module SampleCalls.

Definition request_events : list Event :=
  call_events (Sample.env_of Sample.json) Sample.logger
    (CallRequest (Sample.request []) "{}") 0.

Definition response_events : list Event :=
  call_events (Sample.env_of Sample.json) Sample.logger
    (CallResponse "req-1" Sample.json "{}") 1.

(** The file write of the request, both writes of the response, the
    console write of the request. *)
Definition alternating : list Event :=
  (firstn 1 request_events ++ response_events ++ skipn 1 request_events)%list.

End SampleCalls.

(** The ways in which the events of two goroutines can follow one
    another, each event being one step. *)
Inductive interleave {A : Type} : list A -> list A -> list A -> Prop :=
| interleave_nil : interleave [] [] []
| interleave_left (a : A) (l1 l2 l : list A) :
    interleave l1 l2 l -> interleave (a :: l1) l2 (a :: l)
| interleave_right (a : A) (l1 l2 l : list A) :
    interleave l1 l2 l -> interleave l1 (a :: l2) (a :: l).

(** The data of the write calls on sink [k], in order. *)
Definition writes_to (k : Sink) (evs : list Event) : list string :=
  flat_map
    (fun ev =>
       match ev with
       | EvWrite j d => if sink_eqb j k then [d] else []
       | _ => []
       end) evs.

(** C9 as the specification words it, for one call: the writes of the
    call are made under the lock of their sink. *)
Definition serialized_by_lock_as_stated (env : Env) (l : RequestLogger.t)
  (c : LogCall) : Prop :=
  writes_under_lock (call_events env l c O) = true.


(** Upstreams that fail. *)
Module SampleFailures.


(** An event stream that is reset after two events. *)
Definition broken_sse : Response.t :=
  {| Response.Proto := "HTTP/1.1"; Response.Status := "200 OK";
     Response.StatusCode := 200;
     Response.Header := [("Content-Type", ["text/event-stream"])];
     Response.Body := {| Reader.pending := ["data: a"; "data: b"];
                         Reader.final := Reader.Failure "connection reset" |} |}.


(** The upstream cannot be reached. *)
Definition refused : Env :=
  {| now := Sample.clock; NewRequest_error := fun _ _ => None;
     Do := fun _ => inl "dial tcp: connection refused" |}.

(** [http.NewRequest] rejects the target. *)
Definition rejecting : Env :=
  {| now := Sample.clock;
     NewRequest_error := fun _ _ => Some "invalid URL escape";
     Do := fun _ => inr Sample.json |}.

(** The command line [-req=false -p 9000]. *)
Definition cmdline : flag.FlagSet :=
  {| flag.port := "9000"; flag.url := ""; flag.key := ""; flag.req := false;
     flag.resp := true; flag.stdout := true; flag.file := "";
     flag.actual := ["p"; "req"] |}.

(** The environment [LOG_REQUESTS=true PORT=8000]. *)
Definition environment (name : string) : string :=
  if name =? "LOG_REQUESTS" then "true"
  else if name =? "PORT" then "8000" else "".

End SampleFailures.

(** * Properties *)

(** ** Strings *)

Lemma append_nil_r (a : string) : a ++ "" = a.
Proof. induction a as [|c a IH]; simpl; [reflexivity | now rewrite IH]. Qed.

Lemma append_assoc (a b c : string) : (a ++ b) ++ c = a ++ b ++ c.
Proof. induction a as [|x a IH]; simpl; [reflexivity | now rewrite IH]. Qed.

Lemma length_append (a b : string) :
  String.length (a ++ b) = (String.length a + String.length b)%nat.
Proof. induction a as [|x a IH]; simpl; [reflexivity | now rewrite IH]. Qed.

Lemma append_inv_head (a b c : string) : a ++ b = a ++ c -> b = c.
Proof.
  induction a as [|x a IH]; simpl; intros H; [exact H|].
  injection H as H. now apply IH.
Qed.

Lemma slice_to_from (n : nat) (a : string) : slice_to n a ++ slice_from n a = a.
Proof.
  unfold slice_to. revert a.
  induction n as [|n IH]; intros [|c a]; simpl; try reflexivity.
  now rewrite IH.
Qed.

Lemma length_slice_to (n : nat) (a : string) :
  (n <= String.length a)%nat -> String.length (slice_to n a) = n.
Proof.
  unfold slice_to. revert a.
  induction n as [|n IH]; intros [|c a]; simpl; intros H; try reflexivity; try lia.
  rewrite IH; [reflexivity | lia].
Qed.

Lemma length_slice_from (n : nat) (a : string) :
  String.length (slice_from n a) = (String.length a - n)%nat.
Proof.
  revert a. induction n as [|n IH]; intros [|c a]; simpl; try reflexivity.
  apply IH.
Qed.

Lemma slice_to_append (a b : string) : slice_to (String.length a) (a ++ b) = a.
Proof.
  unfold slice_to. induction a as [|c a IH]; simpl.
  - destruct b; reflexivity.
  - now rewrite IH.
Qed.

Lemma slice_to_all (n : nat) (a : string) :
  (String.length a <= n)%nat -> slice_to n a = a.
Proof.
  unfold slice_to. revert a.
  induction n as [|n IH]; intros [|c a]; simpl; intros H; try reflexivity; try lia.
  rewrite IH; [reflexivity | lia].
Qed.

Lemma slice_to_append_l (n : nat) (a b : string) :
  (n <= String.length a)%nat -> slice_to n (a ++ b) = slice_to n a.
Proof.
  unfold slice_to. revert a.
  induction n as [|n IH]; intros [|c a]; simpl; intros H; try reflexivity; try lia.
  - destruct b; reflexivity.
  - rewrite IH; [reflexivity | lia].
Qed.

Lemma slice_to_append_r (n : nat) (a b : string) :
  (String.length a <= n)%nat ->
  slice_to n (a ++ b) = a ++ slice_to (n - String.length a) b.
Proof.
  unfold slice_to. revert n.
  induction a as [|c a IH]; simpl; intros n H.
  - now rewrite Nat.sub_0_r.
  - destruct n as [|n]; [lia|]. simpl. rewrite IH; [reflexivity | lia].
Qed.

Lemma eqb_false_neq (a b : string) : (a =? b) = false -> a <> b.
Proof. apply String.eqb_neq. Qed.

Lemma req_prefix_nonempty (x : string) : ("req-" ++ x =? "") = false.
Proof. reflexivity. Qed.

(** ** The header map *)

Lemma lookup_store_same (k : string) (vs : list string) (h : Header.t) :
  Header.lookup k (Header.store k vs h) = Some vs.
Proof.
  induction h as [|[k' old] h IH]; simpl.
  - now rewrite String.eqb_refl.
  - destruct (k' =? k) eqn:E; simpl; rewrite E; [reflexivity | exact IH].
Qed.

Lemma lookup_store_other (k k' : string) (vs : list string) (h : Header.t) :
  k <> k' -> Header.lookup k' (Header.store k vs h) = Header.lookup k' h.
Proof.
  intros Hne. induction h as [|[k0 old] h IH]; simpl.
  - destruct (k =? k') eqn:E; [apply String.eqb_eq in E; contradiction | reflexivity].
  - destruct (k0 =? k) eqn:E; simpl.
    + apply String.eqb_eq in E. subst k0.
      destruct (k =? k') eqn:E'; [apply String.eqb_eq in E'; contradiction | reflexivity].
    + destruct (k0 =? k'); [reflexivity | exact IH].
Qed.

Lemma Get_Set_same (h : Header.t) (k v : string) : Header.Get (Header.Set_ h k v) k = v.
Proof.
  unfold Header.Get, Header.Set_, Header.index.
  now rewrite lookup_store_same.
Qed.

(** ** The correlation id *)


Lemma logged_not_Do (id : string) (evs : list Event) (q : ProxyReq.t) :
  Forall (logged id) evs -> ~ In (EvDo q) evs.
Proof.
  intros Hf Hin. rewrite Forall_forall in Hf. apply (Hf _ Hin).
Qed.

Lemma sink_writes_request (l : RequestLogger.t) (id ts : string)
  (r : Request.t) (body : string) :
  Forall (logged id) (sink_writes l (request_record id ts r body)).
Proof.
  unfold sink_writes. apply Forall_app. split.
  - destruct (_ && _); constructor; [|constructor].
    left. exists ts, r, body. now right.
  - destruct (RequestLogger.LogToStdout l); constructor; [|constructor].
    left. exists ts, r, body. now left.
Qed.

Lemma sink_writes_response (l : RequestLogger.t) (id ts : string)
  (resp : Response.t) (body : string) :
  Forall (logged id) (sink_writes l (response_record id ts resp body)).
Proof.
  unfold sink_writes. apply Forall_app. split.
  - destruct (_ && _); constructor; [|constructor].
    right. exists ts, resp, body. now right.
  - destruct (RequestLogger.LogToStdout l); constructor; [|constructor].
    right. exists ts, resp, body. now left.
Qed.

Lemma events_LogRequest (env : Env) (l : RequestLogger.t) (r : Request.t)
  (body : string) (wd : World) :
  Header.Get (Request.Header r) "X-Request-ID" <> "" ->
  events (LogRequest env l r body wd) =
  (events wd ++
   sink_writes l
     (request_record (Header.Get (Request.Header r) "X-Request-ID")
        (RFC3339 (now env (tick wd))) r body))%list.
Proof.
  intros Hid. unfold LogRequest.
  destruct (Header.Get (Request.Header r) "X-Request-ID" =? "") eqn:E.
  - apply String.eqb_eq in E. contradiction.
  - reflexivity.
Qed.

Lemma events_LogResponse (env : Env) (l : RequestLogger.t) (id : string)
  (resp : Response.t) (body : string) (wd : World) :
  events (LogResponse env l id resp body wd) =
  (events wd ++
   sink_writes l (response_record id (RFC3339 (now env (tick wd))) resp body))%list.
Proof. reflexivity. Qed.

Lemma assign_request_id_spec (env : Env) (r : Request.t) (wd : World) :
  forall id r' wd',
    assign_request_id env r wd = (id, r', wd') ->
    Header.Get (Request.Header r') "X-Request-ID" = id /\
    id <> "" /\
    events wd' = events wd /\
    Request.Body r' = Request.Body r /\
    (Header.Get (Request.Header r) "X-Request-ID" <> "" ->
     id = Header.Get (Request.Header r) "X-Request-ID" /\ r' = r).
Proof.
  intros id r' wd'. unfold assign_request_id.
  destruct (Header.Get (Request.Header r) "X-Request-ID" =? "") eqn:E;
    intros H; injection H as <- <- <-.
  - simpl. rewrite Get_Set_same. apply String.eqb_eq in E.
    split; [reflexivity|]. split; [apply eqb_false_neq, req_prefix_nonempty|].
    split; [reflexivity|]. split; [reflexivity|].
    intros Hne. contradiction.
  - split; [reflexivity|]. split; [now apply eqb_false_neq|].
    split; [reflexivity|]. split; [reflexivity|].
    intros _. split; reflexivity.
Qed.

Lemma read_request_body_header (r r' : Request.t) (bodyBytes : string) :
  read_request_body r = Some (bodyBytes, r') ->
  Request.Header r' = Request.Header r.
Proof.
  unfold read_request_body. destruct (Request.Body r) as [b|].
  - destruct (Reader.ReadAll b) as [data [err|]]; [discriminate|].
    intros H. injection H as <- <-. reflexivity.
  - intros H. injection H as <- <-. reflexivity.
Qed.

Lemma stream_loop_events (env : Env) (s : ProxyServer.t) (id : string)
  (resp : Response.t) (fuel : nat) :
  forall src w wd w' wd',
    stream_loop env s fuel id resp src w wd = Some (w', wd') ->
    exists evs, events wd' = (events wd ++ evs)%list /\ Forall (logged id) evs.
Proof.
  induction fuel as [|fuel IH]; intros src w wd w' wd'; simpl; [discriminate|].
  destruct (Reader.Read bufferSize src) as [[chunk err] src'].
  destruct (0 <? String.length chunk)%nat.
  - destruct (ResponseWriter.Write chunk w) as [w1 [|]].
    + destruct err as [[|msg]|].
      * intros H. injection H as <- <-. eexists. split.
        -- apply events_LogResponse.
        -- apply sink_writes_response.
      * intros H. injection H as <- <-. simpl. eexists. split.
        -- rewrite <- app_assoc. reflexivity.
        -- apply Forall_app. split; [apply sink_writes_response|].
           constructor; [exact I | constructor].
      * intros H. apply IH in H. destruct H as [evs [He Hf]].
        rewrite events_LogResponse in He. eexists. split.
        -- rewrite He, <- app_assoc. reflexivity.
        -- apply Forall_app. split; [apply sink_writes_response | exact Hf].
    + intros H. injection H as <- <-. simpl. eexists. split; [reflexivity|].
      constructor; [exact I | constructor].
  - destruct err as [[|msg]|].
    + intros H. injection H as <- <-. exists []. split.
      * now rewrite app_nil_r.
      * constructor.
    + intros H. injection H as <- <-. simpl. eexists. split; [reflexivity|].
      constructor; [exact I | constructor].
    + apply IH.
Qed.

Lemma relay_response_events (env : Env) (s : ProxyServer.t) (id : string)
  (resp : Response.t) (w : ResponseWriter.t) (wd : World) :
  exists evs,
    events (snd (relay_response env s id resp w wd)) = (events wd ++ evs)%list /\
    Forall (logged id) evs.
Proof.
  unfold relay_response. destruct (isStreaming resp).
  - unfold relay_stream. destruct (Config.LogResponses (ProxyServer.Config s)).
    + match goal with |- context [negb ?b] => destruct b end; simpl negb; cbv iota.
      * match goal with
        | |- context [stream_loop ?e ?s ?f ?i ?r ?b ?w ?d] =>
            destruct (stream_loop e s f i r b w d) as [[w' wd']|] eqn:E
        end.
        -- simpl. eapply stream_loop_events. exact E.
        -- simpl. exists []. split; [now rewrite app_nil_r | constructor].
      * simpl. exists []. split; [now rewrite app_nil_r | constructor].
    + simpl. exists []. split; [now rewrite app_nil_r | constructor].
  - unfold relay_buffered.
    destruct (Reader.ReadAll (Response.Body resp)) as [data [err|]]; simpl.
    + eexists. split; [reflexivity|]. constructor; [exact I | constructor].
    + destruct (Config.LogResponses (ProxyServer.Config s)).
      * eexists. split; [apply events_LogResponse | apply sink_writes_response].
      * exists []. split; [now rewrite app_nil_r | constructor].
Qed.


(** ** The outbound request *)

Lemma length_ToLower (a : string) : String.length (ToLower a) = String.length a.
Proof. induction a as [|c a IH]; simpl; [reflexivity | now rewrite IH]. Qed.

Lemma length_canon_from (up : bool) (a : string) :
  String.length (textproto.canon_from up a) = String.length a.
Proof.
  revert up. induction a as [|c a IH]; intros up; simpl; [reflexivity|].
  now rewrite IH.
Qed.

Lemma length_Canonical (a : string) :
  String.length (textproto.CanonicalMIMEHeaderKey a) = String.length a.
Proof.
  unfold textproto.CanonicalMIMEHeaderKey.
  destruct (textproto.all_valid a); [apply length_canon_from | reflexivity].
Qed.

(** A name that the copy loop skips as [Host] has four bytes, so its
    canonical form is no key of another length. *)
Lemma is_host_not_key (name K : string) :
  String.length K <> 4%nat ->
  is_host name = true -> (textproto.CanonicalMIMEHeaderKey name =? K) = false.
Proof.
  intros HK Hh. unfold is_host in Hh. apply String.eqb_eq in Hh.
  apply String.eqb_neq. intros E.
  apply HK. rewrite <- E, length_Canonical, <- length_ToLower, Hh. reflexivity.
Qed.

Lemma index_store (K k : string) (vs : list string) (h : Header.t) :
  Header.index K (Header.store k vs h) = if k =? K then vs else Header.index K h.
Proof.
  unfold Header.index. destruct (k =? K) eqn:E.
  - apply String.eqb_eq in E. subst. now rewrite lookup_store_same.
  - apply String.eqb_neq in E. now rewrite lookup_store_other.
Qed.

Lemma index_Add (K name v : string) (d : Header.t) :
  Header.index K (Header.Add d name v) =
  if textproto.CanonicalMIMEHeaderKey name =? K
  then (Header.index K d ++ [v])%list else Header.index K d.
Proof.
  unfold Header.Add. rewrite index_store.
  destruct (textproto.CanonicalMIMEHeaderKey name =? K) eqn:E; [|reflexivity].
  apply String.eqb_eq in E. now rewrite E.
Qed.

Lemma index_fold_Add (K name : string) (values : list string) :
  forall d,
    Header.index K (fold_left (fun d v => Header.Add d name v) values d) =
    (Header.index K d ++
     if textproto.CanonicalMIMEHeaderKey name =? K then values else [])%list.
Proof.
  induction values as [|v values IH]; intros d; simpl.
  - destruct (_ =? K); now rewrite app_nil_r.
  - rewrite IH, index_Add.
    destruct (textproto.CanonicalMIMEHeaderKey name =? K).
    + now rewrite <- app_assoc.
    + reflexivity.
Qed.

(** What the copy loop leaves under a key: what was there, then the
    values of the copied entries whose canonical name is the key, in the
    order of the loop. *)
Lemma index_copy_headers (skip : string -> bool) (K : string) (src : Header.t) :
  forall dst,
    Header.index K (copy_headers skip src dst) =
    (Header.index K dst ++
     List.concat (map snd
       (filter (fun e => negb (skip (fst e)) &&
                         (textproto.CanonicalMIMEHeaderKey (fst e) =? K)) src)))%list.
Proof.
  unfold copy_headers.
  induction src as [|[name values] src IH]; intros dst; simpl.
  - now rewrite app_nil_r.
  - rewrite IH. destruct (skip name); simpl; [reflexivity|].
    rewrite index_fold_Add.
    destruct (textproto.CanonicalMIMEHeaderKey name =? K); simpl.
    + now rewrite <- app_assoc.
    + now rewrite app_nil_r.
Qed.

Lemma index_copy_request_headers (key : string) (src : Header.t) :
  String.length (textproto.CanonicalMIMEHeaderKey key) <> 4%nat ->
  Header.index (textproto.CanonicalMIMEHeaderKey key) (copy_headers is_host src []) =
  Header.carried src key.
Proof.
  intros HK. rewrite index_copy_headers. simpl.
  unfold Header.carried, Header.gather.
  do 2 f_equal. apply filter_ext. intros [name values]. simpl.
  destruct (is_host name) eqn:E; simpl; [|reflexivity].
  symmetry. now apply is_host_not_key.
Qed.

Section Gather.

Variable p : string -> bool.

Lemma gather_cons (k : string) (vs : list string) (h : Header.t) :
  Header.gather p ((k, vs) :: h) =
  ((if p k then vs else []) ++ Header.gather p h)%list.
Proof. unfold Header.gather. simpl. destruct (p k); reflexivity. Qed.

Lemma gather_store_other (k : string) (vs : list string) (h : Header.t) :
  p k = false -> Header.gather p (Header.store k vs h) = Header.gather p h.
Proof.
  intros Hk. induction h as [|[k0 old] h IH]; simpl.
  - rewrite gather_cons, Hk. reflexivity.
  - destruct (k0 =? k) eqn:E.
    + apply String.eqb_eq in E. subst k0. now rewrite !gather_cons, Hk.
    + now rewrite !gather_cons, IH.
Qed.

Lemma gather_store_In (k v : string) (vs : list string) (h : Header.t) :
  p k = true -> In v vs -> In v (Header.gather p (Header.store k vs h)).
Proof.
  intros Hk Hin. induction h as [|[k0 old] h IH]; simpl.
  - rewrite gather_cons, Hk. apply in_or_app. now left.
  - destruct (k0 =? k) eqn:E.
    + apply String.eqb_eq in E. subst k0. rewrite gather_cons, Hk.
      apply in_or_app. now left.
    + rewrite gather_cons. apply in_or_app. now right.
Qed.

Lemma gather_store_fresh (k : string) (vs : list string) (h : Header.t) :
  p k = true -> Header.gather p h = [] ->
  Header.gather p (Header.store k vs h) = vs.
Proof.
  intros Hk. induction h as [|[k0 old] h IH]; simpl; intros Hnil.
  - rewrite gather_cons, Hk. apply app_nil_r.
  - rewrite gather_cons in Hnil. apply app_eq_nil in Hnil.
    destruct Hnil as [Hold Hnil].
    destruct (k0 =? k) eqn:E.
    + apply String.eqb_eq in E. subst k0.
      rewrite gather_cons, Hk, Hnil. apply app_nil_r.
    + rewrite gather_cons, Hold. simpl. now apply IH.
Qed.

Lemma gather_nil_index (k : string) (h : Header.t) :
  p k = true -> Header.gather p h = [] -> Header.index k h = [].
Proof.
  intros Hk. unfold Header.index.
  induction h as [|[k0 old] h IH]; simpl; intros Hnil; [reflexivity|].
  rewrite gather_cons in Hnil. apply app_eq_nil in Hnil.
  destruct Hnil as [Hold Hnil].
  destruct (k0 =? k) eqn:E.
  - apply String.eqb_eq in E. subst k0. now rewrite Hk in Hold.
  - now apply IH.
Qed.

End Gather.

(** The outbound request of a call is the one that
    [build_proxy_request] makes from the request with its correlation id
    assigned and its body read. *)
Lemma ServeHTTP_dispatch (env : Env) (s : ProxyServer.t) (w : ResponseWriter.t)
  (r : Request.t) (wd : World) (q : ProxyReq.t) :
  In (EvDo q) (events (snd (ServeHTTP env s w r wd))) ->
  ~ In (EvDo q) (events wd) ->
  exists id r1 wd1 bodyBytes r2,
    assign_request_id env r wd = (id, r1, wd1) /\
    read_request_body r1 = Some (bodyBytes, r2) /\
    build_proxy_request env s r2 bodyBytes = inr q.
Proof.
  unfold ServeHTTP.
  destruct (assign_request_id env r wd) as [[id r1] wd1] eqn:Ea.
  pose proof (assign_request_id_spec _ _ _ _ _ _ Ea) as (Hget & Hne & Hev & _ & _).
  destruct (read_request_body r1) as [[bodyBytes r2]|] eqn:Eb.
  - pose proof (read_request_body_header _ _ _ Eb) as Hh.
    set (wd2 := if Config.LogRequests (ProxyServer.Config s)
                then LogRequest env (ProxyServer.Logger s) r2 bodyBytes wd1
                else wd1).
    assert (Hreq : exists evs, events wd2 = (events wd ++ evs)%list /\
                               Forall (logged id) evs).
    { subst wd2. destruct (Config.LogRequests (ProxyServer.Config s)).
      - rewrite events_LogRequest by (rewrite Hh, Hget; exact Hne).
        rewrite Hh, Hget, Hev. eexists. split; [reflexivity|].
        apply sink_writes_request.
      - exists []. rewrite Hev, app_nil_r. split; [reflexivity | constructor]. }
    destruct Hreq as (evs1 & He1 & Hf1).
    destruct (build_proxy_request env s r2 bodyBytes) as [err|proxyReq] eqn:Eq.
    + simpl. rewrite He1. intros Hin Hold. apply in_app_or in Hin.
      destruct Hin as [Hin|Hin]; [contradiction|].
      exfalso. exact (logged_not_Do _ _ _ Hf1 Hin).
    + pose proof (logged_not_Do id evs1 q Hf1) as Hn1.
      destruct (Do env proxyReq) as [err|resp].
      * simpl. rewrite He1. intros Hin Hold.
        assert (q = proxyReq) as ->.
        { rewrite !in_app_iff in Hin. simpl in Hin. intuition congruence. }
        now exists id, r1, wd1, bodyBytes, r2.
      * destruct (relay_response_events env s id resp w (emit [EvDo proxyReq] wd2))
          as (evs2 & He2 & Hf2).
        pose proof (logged_not_Do id evs2 q Hf2) as Hn2.
        rewrite He2. simpl. rewrite He1. intros Hin Hold.
        assert (q = proxyReq) as ->.
        { rewrite !in_app_iff in Hin. simpl in Hin. intuition congruence. }
        now exists id, r1, wd1, bodyBytes, r2.
  - simpl. rewrite Hev. intros Hin Hold. contradiction.
Qed.

Lemma Get_hd (h : Header.t) (key : string) :
  Header.Get h key =
  hd EmptyString (Header.index (textproto.CanonicalMIMEHeaderKey key) h).
Proof. unfold Header.Get. now destruct (Header.index _ h). Qed.

Lemma index_lookup (K : string) (h : Header.t) (v : string) (vs : list string) :
  Header.index K h = v :: vs -> Header.lookup K h = Some (v :: vs).
Proof.
  unfold Header.index. destruct (Header.lookup K h) as [l|]; [|discriminate].
  now intros ->.
Qed.


Lemma build_proxy_request_header (env : Env) (s : ProxyServer.t)
  (r : Request.t) (bodyBytes : string) (q : ProxyReq.t) :
  build_proxy_request env s r bodyBytes = inr q ->
  ProxyReq.Header q =
  outbound_header (Config.OpenAIAPIKey (ProxyServer.Config s)) (Request.Header r).
Proof.
  unfold build_proxy_request.
  destruct (NewRequest_error env _ _); [discriminate|].
  intros H. injection H as <-. reflexivity.
Qed.

(** The header from which the outbound request of a call is built: the
    inbound one, with the synthesised correlation id set when the inbound
    one has none. *)
Lemma ServeHTTP_outbound_header (env : Env) (s : ProxyServer.t)
  (w : ResponseWriter.t) (r : Request.t) (wd : World) (q : ProxyReq.t) :
  In (EvDo q) (events (snd (ServeHTTP env s w r wd))) ->
  ~ In (EvDo q) (events wd) ->
  ProxyReq.Header q =
  outbound_header (Config.OpenAIAPIKey (ProxyServer.Config s))
    (if Header.Get (Request.Header r) "X-Request-ID" =? ""
     then Header.Set_ (Request.Header r) "X-Request-ID"
            ("req-" ++ fmt_d (UnixNano (now env (tick wd))))
     else Request.Header r).
Proof.
  intros Hin Hold.
  destruct (ServeHTTP_dispatch _ _ _ _ _ _ Hin Hold)
    as (id & r1 & wd1 & bodyBytes & r2 & Ha & Hb & Hq).
  rewrite (build_proxy_request_header _ _ _ _ _ Hq).
  rewrite (read_request_body_header _ _ _ Hb).
  unfold assign_request_id in Ha.
  destruct (Header.Get (Request.Header r) "X-Request-ID" =? "");
    injection Ha as _ <- _; reflexivity.
Qed.

Lemma index_outbound_header_other (key K : string) (h : Header.t) :
  K <> "Authorization" ->
  Header.index K (outbound_header key h) = Header.index K (copy_headers is_host h []).
Proof.
  intros HK. unfold outbound_header.
  destruct (_ && _); [|reflexivity].
  unfold Header.Set_. rewrite index_store.
  change (textproto.CanonicalMIMEHeaderKey "Authorization") with "Authorization".
  destruct ("Authorization" =? K) eqn:E; [|reflexivity].
  apply String.eqb_eq in E. congruence.
Qed.

(** C10.  When the inbound request has no [X-Request-ID] value (the test
    of line 180), the outbound request carries the synthesised id under
    [X-Request-Id]; and when the inbound map has no entry at all whose
    name canonicalises to it, the outbound map has exactly that one
    value there while the inbound map has none: the outbound headers are
    not the inbound ones minus [Host]. *)
Theorem outbound_carries_request_id (env : Env) (s : ProxyServer.t)
  (w : ResponseWriter.t) (r : Request.t) (wd : World) (q : ProxyReq.t) :
  In (EvDo q) (events (snd (ServeHTTP env s w r wd))) ->
  ~ In (EvDo q) (events wd) ->
  Header.Get (Request.Header r) "X-Request-ID" = "" ->
  let id := "req-" ++ fmt_d (UnixNano (now env (tick wd))) in
  In id (Header.index "X-Request-Id" (ProxyReq.Header q)) /\
  (Header.carried (Request.Header r) "X-Request-ID" = [] ->
   Header.lookup "X-Request-Id" (ProxyReq.Header q) = Some [id] /\
   Header.index "X-Request-Id" (Request.Header r) = []).
Proof.
  intros Hin Hold Hget id.
  rewrite (ServeHTTP_outbound_header _ _ _ _ _ _ Hin Hold), Hget. simpl (_ =? _).
  cbv iota.
  rewrite index_outbound_header_other by discriminate.
  change "X-Request-Id" with (textproto.CanonicalMIMEHeaderKey "X-Request-ID") at 1 3.
  rewrite index_copy_request_headers by (simpl; lia).
  unfold Header.carried, Header.Set_. split.
  - apply gather_store_In; [reflexivity | now left].
  - intros Hnone. split.
    + apply index_lookup.
      change "X-Request-Id" with (textproto.CanonicalMIMEHeaderKey "X-Request-ID") at 1.
      rewrite index_outbound_header_other by discriminate.
      rewrite index_copy_request_headers by (simpl; lia).
      unfold Header.carried. now apply gather_store_fresh.
    + eapply gather_nil_index; [|exact Hnone]. reflexivity.
Qed.

(** ** Credential injection *)

(** C1, counterexample: an inbound [Authorization] header with an empty
    value is replaced by the configured credential. *)
Lemma empty_authorization_overridden :
  ~ credential_rule_as_stated (Sample.env_of Sample.json) (Sample.server false)
      (ResponseWriter.fresh true None)
      (Sample.request [("Authorization", [""])]).
Proof.
  intros H.
  specialize (H (Sample.outbound [("Authorization", [""])])).
  vm_compute in H.
  assert (Hq : Some ["Bearer sk-test"] = Some [""]) by (apply H; now left).
  discriminate Hq.
Qed.

(** C1, amended.  Let [supplied] be the values that the inbound request
    carries under [Authorization] (whatever the spelling of the name).
    When the first of them is not empty, the outbound request has
    exactly [supplied] under [Authorization] and no credential is
    injected.  When there is none, or the first is empty, and a
    non-empty credential is configured, the outbound request has exactly
    [Bearer <credential>]; without a credential it has [supplied]. *)
Theorem authorization_injection (env : Env) (s : ProxyServer.t)
  (w : ResponseWriter.t) (r : Request.t) (wd : World) (q : ProxyReq.t) :
  In (EvDo q) (events (snd (ServeHTTP env s w r wd))) ->
  ~ In (EvDo q) (events wd) ->
  let supplied := Header.carried (Request.Header r) "Authorization" in
  let key := Config.OpenAIAPIKey (ProxyServer.Config s) in
  (hd "" supplied <> "" ->
   Header.lookup "Authorization" (ProxyReq.Header q) = Some supplied) /\
  (hd "" supplied = "" -> key <> "" ->
   Header.lookup "Authorization" (ProxyReq.Header q) = Some ["Bearer " ++ key]) /\
  (hd "" supplied = "" -> key = "" ->
   Header.index "Authorization" (ProxyReq.Header q) = supplied).
Proof.
  intros Hin Hold supplied key.
  rewrite (ServeHTTP_outbound_header _ _ _ _ _ _ Hin Hold).
  set (h := if _ =? "" then _ else _).
  assert (Hcopied : Header.index "Authorization" (copy_headers is_host h []) = supplied).
  { change "Authorization" with (textproto.CanonicalMIMEHeaderKey "Authorization") at 1.
    rewrite index_copy_request_headers by (simpl; lia).
    subst h supplied.
    destruct (Header.Get (Request.Header r) "X-Request-ID" =? ""); [|reflexivity].
    unfold Header.carried, Header.Set_. now rewrite gather_store_other. }
  unfold outbound_header. fold key. rewrite Get_hd.
  change (textproto.CanonicalMIMEHeaderKey "Authorization") with "Authorization".
  rewrite Hcopied.
  split; [|split].
  - intros Hne. apply String.eqb_neq in Hne. rewrite Hne. simpl.
    destruct supplied as [|v vs] eqn:Es; [simpl in Hne; discriminate|].
    now apply index_lookup.
  - intros He Hk. rewrite He. apply String.eqb_neq in Hk. rewrite Hk. simpl.
    unfold Header.Set_. apply lookup_store_same.
  - intros He Hk. rewrite Hk. simpl. rewrite andb_false_r. exact Hcopied.
Qed.

(** The sample server keeps the caller's own bearer token. *)
Lemma authorization_injection_witness :
  Header.lookup "Authorization"
    (ProxyReq.Header (Sample.outbound [("Authorization", ["Bearer mine"])]))
  = Some ["Bearer mine"].
Proof.
  apply (authorization_injection (Sample.env_of Sample.json) (Sample.server true)
           (ResponseWriter.fresh true None)
           (Sample.request [("Authorization", ["Bearer mine"])]) start
           (Sample.outbound [("Authorization", ["Bearer mine"])])).
  - vm_compute. right. right. left. reflexivity.
  - simpl. intros F. exact F.
  - vm_compute. discriminate.
Defined.

(** ** The course of a call *)

Lemma ServeHTTP_unfold (env : Env) (s : ProxyServer.t) (w : ResponseWriter.t)
  (r : Request.t) (wd : World) (id : string) (r1 r2 : Request.t) (wd1 : World)
  (bodyBytes : string) (q : ProxyReq.t) :
  assign_request_id env r wd = (id, r1, wd1) ->
  read_request_body r1 = Some (bodyBytes, r2) ->
  build_proxy_request env s r2 bodyBytes = inr q ->
  ServeHTTP env s w r wd =
  let wd2 :=
    emit [EvDo q]
      (if Config.LogRequests (ProxyServer.Config s)
       then LogRequest env (ProxyServer.Logger s) r2 bodyBytes wd1 else wd1) in
  match Do env q with
  | inl err =>
      (http_Error w ("Error forwarding request to OpenAI API: " ++ err)
         StatusBadGateway, wd2)
  | inr resp => relay_response env s id resp w wd2
  end.
Proof.
  intros Ha Hb Hq. unfold ServeHTTP. rewrite Ha, Hb, Hq. reflexivity.
Qed.

Lemma body_WriteHeader (code : Z) (w : ResponseWriter.t) :
  ResponseWriter.body (ResponseWriter.WriteHeader code w) = ResponseWriter.body w.
Proof. unfold ResponseWriter.WriteHeader. now destruct (ResponseWriter.committed w). Qed.

Lemma room_WriteHeader (code : Z) (w : ResponseWriter.t) :
  ResponseWriter.room (ResponseWriter.WriteHeader code w) = ResponseWriter.room w.
Proof. unfold ResponseWriter.WriteHeader. now destruct (ResponseWriter.committed w). Qed.

Lemma flusher_WriteHeader (code : Z) (w : ResponseWriter.t) :
  ResponseWriter.flusher (ResponseWriter.WriteHeader code w) = ResponseWriter.flusher w.
Proof. unfold ResponseWriter.WriteHeader. now destruct (ResponseWriter.committed w). Qed.

Lemma committed_WriteHeader_again (code : Z) (w : ResponseWriter.t) :
  ResponseWriter.committed w <> None -> ResponseWriter.WriteHeader code w = w.
Proof.
  unfold ResponseWriter.WriteHeader.
  destruct (ResponseWriter.committed w); [reflexivity | congruence].
Qed.

Lemma body_Write_unbounded (data : string) (w : ResponseWriter.t) :
  ResponseWriter.room w = None ->
  ResponseWriter.body (fst (ResponseWriter.Write data w)) =
  ResponseWriter.body w ++ data.
Proof.
  intros Hr. unfold ResponseWriter.Write.
  rewrite room_WriteHeader, Hr. simpl. now rewrite body_WriteHeader.
Qed.

(** ** Bodies: relayed whole, logged up to the cap *)







(** The sample server sends the synthesised id upstream. *)
Lemma outbound_carries_request_id_witness :
  Header.lookup "X-Request-Id" (ProxyReq.Header (Sample.outbound []))
  = Some ["req-1714564800000000000"].
Proof.
  apply (outbound_carries_request_id (Sample.env_of Sample.json)
           (Sample.server false) (ResponseWriter.fresh true None)
           (Sample.request []) start (Sample.outbound [])).
  - vm_compute. left. reflexivity.
  - simpl. tauto.
  - reflexivity.
  - reflexivity.
Defined.

(** ** Failure to read the inbound body *)

Lemma http_Error_fresh (w : ResponseWriter.t) (error : string) (code : Z) :
  ResponseWriter.committed w = None ->
  exists h,
    ResponseWriter.committed (http_Error w error code) = Some (code, h) /\
    Header.Get h "Content-Type" = "text/plain; charset=utf-8".
Proof.
  intros Hc. unfold http_Error, ResponseWriter.Write.
  set (h := Header.Set_ (Header.Set_ (Header.Del _ _) _ _) _ _).
  exists h. split.
  - unfold ResponseWriter.WriteHeader, ResponseWriter.with_header. simpl.
    rewrite Hc. simpl. destruct (ResponseWriter.room w) as [n|]; simpl.
    + destruct (_ <=? n)%nat; reflexivity.
    + reflexivity.
  - subst h. unfold Header.Get, Header.Set_.
    rewrite index_store.
    change (textproto.CanonicalMIMEHeaderKey "X-Content-Type-Options" =?
            textproto.CanonicalMIMEHeaderKey "Content-Type") with false.
    cbv iota. rewrite index_store. now rewrite String.eqb_refl.
Qed.

Lemma http_Error_body (w : ResponseWriter.t) (error : string) (code : Z) :
  ResponseWriter.room w = None ->
  ResponseWriter.body (http_Error w error code) =
  ResponseWriter.body w ++ error ++ LF.
Proof.
  intros Hr. unfold http_Error. rewrite body_Write_unbounded.
  - now rewrite body_WriteHeader.
  - now rewrite room_WriteHeader.
Qed.

(** C7.  When reading the inbound body fails, the handler answers with
    [http.Error(w, "Error reading request body", 500)] and returns: on a
    writer that has sent nothing yet the client gets status 500 with a
    plain-text content type and the message as body, and the run adds no
    event at all, so no outbound request is dispatched. *)
Theorem body_read_failure_is_local (env : Env) (s : ProxyServer.t)
  (w : ResponseWriter.t) (r : Request.t) (wd : World) (b : Reader.t)
  (msg : string) :
  Request.Body r = Some b ->
  Reader.final b = Reader.Failure msg ->
  let run := ServeHTTP env s w r wd in
  fst run = http_Error w "Error reading request body" StatusInternalServerError /\
  events (snd run) = events wd /\
  dispatched (events (snd run)) = dispatched (events wd) /\
  (ResponseWriter.committed w = None ->
   exists h,
     ResponseWriter.committed (fst run) = Some (500%Z, h) /\
     Header.Get h "Content-Type" = "text/plain; charset=utf-8") /\
  (ResponseWriter.room w = None ->
   ResponseWriter.body (fst run) =
   ResponseWriter.body w ++ "Error reading request body" ++ LF).
Proof.
  intros Hb Hfail run.
  assert (Hrun : run = (http_Error w "Error reading request body"
                          StatusInternalServerError,
                        snd (assign_request_id env r wd))).
  { subst run. unfold ServeHTTP.
    destruct (assign_request_id env r wd) as [[id r1] wd1] eqn:Ea.
    pose proof (assign_request_id_spec _ _ _ _ _ _ Ea) as (_ & _ & _ & Hbody & _).
    unfold read_request_body. rewrite Hbody, Hb.
    unfold Reader.ReadAll. rewrite Hfail. reflexivity. }
  assert (Hev : events (snd run) = events wd).
  { rewrite Hrun. simpl.
    destruct (assign_request_id env r wd) as [[id r1] wd1] eqn:Ea.
    now pose proof (assign_request_id_spec _ _ _ _ _ _ Ea) as (_ & _ & Hev & _). }
  split; [now rewrite Hrun|]. split; [exact Hev|].
  split; [now rewrite Hev|]. split.
  - intros Hc. rewrite Hrun. simpl. now apply http_Error_fresh.
  - intros Hr. rewrite Hrun. simpl. now apply http_Error_body.
Qed.

(** A request whose body breaks off gets the local error from the
    sample server. *)
Lemma body_read_failure_is_local_witness :
  events (snd (ServeHTTP (Sample.env_of Sample.json) (Sample.server true)
                 (ResponseWriter.fresh true None)
                 (with_request_body
                    (Some {| Reader.pending := ["{"];
                             Reader.final := Reader.Failure "unexpected EOF" |})
                    (Sample.request [])) start)) = [].
Proof.
  apply (body_read_failure_is_local (Sample.env_of Sample.json) (Sample.server true)
           (ResponseWriter.fresh true None)
           (with_request_body
              (Some {| Reader.pending := ["{"];
                       Reader.final := Reader.Failure "unexpected EOF" |})
              (Sample.request [])) start
           {| Reader.pending := ["{"]; Reader.final := Reader.Failure "unexpected EOF" |}
           "unexpected EOF").
  - reflexivity.
  - reflexivity.
Defined.

(** ** Redaction *)





(** ** The end of a record *)

Lemma closed_append (a b : string) : closed a -> closed b -> closed (a ++ b).
Proof.
  intros Ha [->|[p ->]].
  - now rewrite append_nil_r.
  - right. exists (a ++ p). now rewrite append_assoc.
Qed.

Lemma closed_line (a : string) : closed (a ++ LF).
Proof. right. now exists a. Qed.

Lemma closed_concat_str (parts : list string) :
  Forall closed parts -> closed (concat_str parts).
Proof.
  induction 1 as [|a parts Ha _ IH]; simpl; [now left | now apply closed_append].
Qed.

Lemma closed_request_body_section (body : string) : closed (request_body_section body).
Proof.
  unfold request_body_section, Sprintln.
  destruct (0 <? len body)%Z; [|now left].
  apply closed_append; apply closed_line.
Qed.

Lemma closed_response_body_section (body : string) : closed (response_body_section body).
Proof.
  unfold response_body_section, Sprintln.
  destruct (0 <? len body)%Z; [|now left].
  destruct (maxBodySize <? len body)%Z.
  - right. exists ("Body (truncated to " ++ fmt_d maxBodySize ++ " bytes):" ++ LF
                   ++ slice_to (Z.to_nat maxBodySize) body ++ LF
                   ++ "... [" ++ fmt_d (len body - maxBodySize) ++ " more bytes]").
    now rewrite !append_assoc.
  - right. exists (("Body:" ++ LF) ++ body). now rewrite !append_assoc.
Qed.

Lemma closed_header_lines (name : string) (values : list string) :
  closed (concat_str (map (fun value => "  " ++ name ++ ": " ++ value ++ LF) values)).
Proof.
  apply closed_concat_str, Forall_forall. intros a Ha.
  apply in_map_iff in Ha. destruct Ha as (v & <- & _).
  right. exists ("  " ++ name ++ ": " ++ v). now rewrite !append_assoc.
Qed.

Lemma closed_after_line (a c : string) : closed c -> exists p, a ++ LF ++ c = p ++ LF.
Proof.
  intros [->|[p ->]].
  - exists a. reflexivity.
  - exists (a ++ LF ++ p). now rewrite !append_assoc.
Qed.

Lemma request_record_ends_line (id ts : string) (r : Request.t) (body : string) :
  exists p, request_record id ts r body = p ++ LF.
Proof.
  unfold request_record, Sprintln.
  destruct (closed_after_line
              ("==== REQUEST [" ++ id ++ "] " ++ ts ++ " ====" ++ LF
               ++ Request.Method r ++ " " ++ Request.Path r ++ " "
               ++ Request.Proto r ++ LF ++ "Headers:")
              (concat_str (map request_header_lines (Request.Header r))
               ++ request_body_section body)) as [p Hp].
  - apply closed_append; [|apply closed_request_body_section].
    apply closed_concat_str, Forall_forall. intros a Ha.
    apply in_map_iff in Ha. destruct Ha as ([name values] & <- & _).
    unfold request_header_lines.
    destruct (ToLower name =? "authorization").
    + right. exists ("  " ++ name ++ ": Bearer [REDACTED]"). now rewrite !append_assoc.
    + apply closed_header_lines.
  - exists p. rewrite <- Hp. now rewrite !append_assoc.
Qed.

Lemma response_record_ends_line (id ts : string) (resp : Response.t) (body : string) :
  exists p, response_record id ts resp body = p ++ LF.
Proof.
  unfold response_record, Sprintln.
  destruct (closed_after_line
              ("==== RESPONSE [" ++ id ++ "] " ++ ts ++ " ====" ++ LF
               ++ Response.Proto resp ++ " " ++ Response.Status resp ++ LF
               ++ "Headers:")
              (concat_str (map response_header_lines (Response.Header resp))
               ++ response_body_section body)) as [p Hp].
  - apply closed_append; [|apply closed_response_body_section].
    apply closed_concat_str, Forall_forall. intros a Ha.
    apply in_map_iff in Ha. destruct Ha as ([name values] & <- & _).
    apply closed_header_lines.
  - exists p. rewrite <- Hp. now rewrite !append_assoc.
Qed.

Lemma slice_from_append (a b : string) : slice_from (String.length a) (a ++ b) = b.
Proof. induction a as [|c a IH]; simpl; [reflexivity | exact IH]. Qed.

Lemma HasSuffix_append (a suffix : string) : HasSuffix (a ++ suffix) suffix = true.
Proof.
  unfold HasSuffix. rewrite length_append.
  replace (String.length a + String.length suffix - String.length suffix)%nat
    with (String.length a) by lia.
  rewrite slice_from_append, String.eqb_refl.
  rewrite andb_true_r. apply Nat.leb_le. lia.
Qed.

(** On the file sink every record, of a request or of a response, is
    followed by an empty line: [Fprintln] adds a newline after the one
    that ends the record. *)
Lemma file_record_ends_with_blank_line (l : RequestLogger.t) (logData data : string) :
  (exists p, logData = p ++ LF) ->
  In (EvWrite SinkFile data) (sink_writes l logData) ->
  ends_with_blank_line data = true.
Proof.
  intros [p ->] Hin. unfold sink_writes in Hin. apply in_app_or in Hin.
  destruct Hin as [Hin|Hin].
  - destruct (_ && _); [|contradiction].
    destruct Hin as [Hin|[]]. injection Hin as <-.
    unfold ends_with_blank_line, Sprintln. rewrite append_assoc.
    apply HasSuffix_append.
  - destruct (RequestLogger.LogToStdout l); [|contradiction].
    destruct Hin as [Hin|[]]. discriminate Hin.
Qed.

(** C8, at a failing input.  The sample logger writes the record of a
    request, and of a response, to both sinks: the data on the file ends
    with an empty line, the data on the console does not. *)
Lemma console_record_lacks_blank_line :
  map (fun rec => (fst rec, ends_with_blank_line (snd rec)))
    (records (events (LogRequest (Sample.env_of Sample.json) Sample.logger
                        (Sample.request [("Accept", ["*/*"])]) "{}" start)))
  = [(SinkFile, true); (SinkStdout, false)] /\
  map (fun rec => (fst rec, ends_with_blank_line (snd rec)))
    (records (events (LogResponse (Sample.env_of Sample.json) Sample.logger
                        "req-1" Sample.json "{}" start)))
  = [(SinkFile, true); (SinkStdout, false)].
Proof. split; vm_compute; reflexivity. Qed.

(** ** Streaming without a flusher *)

(** C5, at a failing input.  The upstream answers [200 OK] with an
    event stream, response logging is on and the writer cannot flush:
    the status and the headers of the upstream were sent by line 252
    before the test of line 259, so the client gets status 200 with the
    event-stream content type, and the text of the local error as the
    body; status 500 is never sent. *)
Lemma streaming_unsupported_after_commit :
  let w := fst (ServeHTTP (Sample.env_of Sample.sse) (Sample.server true)
                  (ResponseWriter.fresh false None) (Sample.request []) start) in
  ResponseWriter.committed w
  = Some (200%Z, [("Content-Type", ["text/event-stream"])]) /\
  ResponseWriter.body w = "Streaming not supported" ++ LF.
Proof. vm_compute. split; reflexivity. Qed.

(** In general: in that situation the client gets the upstream's status
    and headers, and the text of the local error after what it had. *)
Lemma relay_stream_unsupported (env : Env) (s : ProxyServer.t) (id : string)
  (resp : Response.t) (w : ResponseWriter.t) (wd : World) :
  isStreaming resp = true ->
  Config.LogResponses (ProxyServer.Config s) = true ->
  ResponseWriter.flusher w = false ->
  ResponseWriter.committed w = None ->
  ResponseWriter.room w = None ->
  let run := relay_response env s id resp w wd in
  ResponseWriter.committed (fst run) =
  Some (Response.StatusCode resp,
        copy_headers (fun _ => false) (Response.Header resp) (ResponseWriter.header w)) /\
  ResponseWriter.body (fst run) =
  ResponseWriter.body w ++ "Streaming not supported" ++ LF /\
  snd run = wd.
Proof.
  intros Hs Hl Hf Hc Hr. unfold relay_response, relay_stream.
  rewrite Hs, Hl, flusher_WriteHeader. simpl ResponseWriter.flusher.
  rewrite Hf. simpl negb. cbv iota. simpl fst. simpl snd.
  split; [|split]; [| |reflexivity].
  - unfold http_Error, ResponseWriter.Write, ResponseWriter.WriteHeader,
      ResponseWriter.with_header. simpl. rewrite Hc. simpl. rewrite Hr.
    reflexivity.
  - rewrite http_Error_body.
    + now rewrite body_WriteHeader.
    + now rewrite room_WriteHeader.
Qed.

(** ** Logging and the relayed bytes *)

Lemma slice_to_empty (n : nat) : slice_to n "" = "".
Proof. now destruct n. Qed.

Lemma deliver_empty (w : ResponseWriter.t) : deliver w "" = ResponseWriter.body w.
Proof.
  unfold deliver. destruct (ResponseWriter.room w).
  - now rewrite slice_to_empty, append_nil_r.
  - apply append_nil_r.
Qed.

Lemma committed_WriteHeader (code : Z) (w : ResponseWriter.t) :
  ResponseWriter.committed (ResponseWriter.WriteHeader code w) <> None.
Proof.
  unfold ResponseWriter.WriteHeader.
  destruct (ResponseWriter.committed w) eqn:E; simpl; congruence.
Qed.

(** One [Write] on a writer that has sent its status. *)
Lemma Write_deliver (chunk rest : string) (w : ResponseWriter.t) :
  ResponseWriter.committed w <> None ->
  ResponseWriter.committed (fst (ResponseWriter.Write chunk w)) =
  ResponseWriter.committed w /\
  if snd (ResponseWriter.Write chunk w)
  then deliver (fst (ResponseWriter.Write chunk w)) rest = deliver w (chunk ++ rest)
  else ResponseWriter.body (fst (ResponseWriter.Write chunk w)) =
       deliver w (chunk ++ rest).
Proof.
  intros Hc. unfold ResponseWriter.Write.
  rewrite (committed_WriteHeader_again 200 w Hc).
  unfold deliver. destruct (ResponseWriter.room w) as [n|]; simpl.
  - destruct (String.length chunk <=? n)%nat eqn:E; simpl.
    + apply Nat.leb_le in E. split; [reflexivity|].
      rewrite slice_to_append_r by exact E. now rewrite append_assoc.
    + apply Nat.leb_gt in E. split; [reflexivity|].
      rewrite slice_to_append_l by lia. reflexivity.
  - split; [reflexivity | now rewrite append_assoc].
Qed.

Lemma Flush_deliver (data : string) (w : ResponseWriter.t) :
  ResponseWriter.committed w <> None ->
  ResponseWriter.committed (ResponseWriter.Flush w) = ResponseWriter.committed w /\
  deliver (ResponseWriter.Flush w) data = deliver w data.
Proof.
  intros Hc. unfold ResponseWriter.Flush.
  rewrite (committed_WriteHeader_again 200 w Hc). now split.
Qed.

(** One [Read]: the bytes not yet read are the chunk and what the reader
    keeps; an error comes without bytes and when none are left; without
    an error the reader has shrunk. *)
Lemma Read_spec (k : nat) (src : Reader.t) :
  (0 < k)%nat ->
  let '(chunk, err, src') := Reader.Read k src in
  concat_str (Reader.pending src) = chunk ++ concat_str (Reader.pending src') /\
  match err with
  | Some _ => chunk = "" /\ concat_str (Reader.pending src') = ""
  | None => (Reader.size src' < Reader.size src)%nat
  end.
Proof.
  intros Hk. unfold Reader.Read, Reader.size.
  destruct (Reader.pending src) as [|c rest] eqn:Ep; simpl.
  - rewrite Ep. now repeat split.
  - destruct (String.length c <=? k)%nat eqn:E; simpl.
    + split; [reflexivity | lia].
    + apply Nat.leb_gt in E. split.
      * now rewrite <- append_assoc, slice_to_from.
      * rewrite length_slice_from. lia.
Qed.

(** The loop of the streaming branch ends within the fuel that
    [relay_stream] gives it, and the client then has what a plain copy
    of the upstream body gives it. *)
Lemma stream_loop_deliver (env : Env) (s : ProxyServer.t) (id : string)
  (resp : Response.t) (fuel : nat) :
  forall src w wd,
    (Reader.size src < fuel)%nat ->
    ResponseWriter.committed w <> None ->
    exists w' wd',
      stream_loop env s fuel id resp src w wd = Some (w', wd') /\
      ResponseWriter.committed w' = ResponseWriter.committed w /\
      ResponseWriter.body w' = deliver w (concat_str (Reader.pending src)).
Proof.
  induction fuel as [|fuel IH]; intros src w wd Hfuel Hc; [lia|].
  simpl.
  pose proof (Read_spec bufferSize src ltac:(unfold bufferSize; lia)) as Hread.
  destruct (Reader.Read bufferSize src) as [[chunk err] src'].
  destruct Hread as [Hdata Herr]. rewrite Hdata.
  destruct err as [e|].
  - destruct Herr as [-> Hnil]. rewrite Hnil. simpl.
    destruct e as [|msg]; eexists _, _;
      (split; [reflexivity|]); (split; [reflexivity|]);
      now rewrite deliver_empty.
  - destruct (0 <? String.length chunk)%nat eqn:Epos.
    + pose proof (Write_deliver chunk (concat_str (Reader.pending src')) w Hc)
        as [Hcw Hdw].
      destruct (ResponseWriter.Write chunk w) as [w1 ok]. simpl in Hcw, Hdw.
      destruct ok.
      * assert (Hc1 : ResponseWriter.committed w1 <> None) by now rewrite Hcw.
        pose proof (Flush_deliver (concat_str (Reader.pending src')) w1 Hc1)
          as [Hcf Hdf].
        destruct (IH src' (ResponseWriter.Flush w1)
                    (LogResponse env (ProxyServer.Logger s) id resp chunk wd))
          as (w' & wd' & Hrun & Hcw' & Hbw'); [lia | now rewrite Hcf |].
        exists w', wd'. split; [exact Hrun|]. split.
        -- now rewrite Hcw', Hcf.
        -- now rewrite Hbw', Hdf.
      * eexists _, _. split; [reflexivity|]. now split.
    + apply Nat.ltb_ge in Epos.
      assert (chunk = "") as -> by (destruct chunk; [reflexivity | simpl in Epos; lia]).
      simpl append.
      destruct (IH src' w wd) as (w' & wd' & Hrun & Hcw' & Hbw'); [lia | exact Hc |].
      now exists w', wd'.
Qed.

Lemma io_Copy_deliver (w : ResponseWriter.t) (src : Reader.t) :
  ResponseWriter.committed w <> None ->
  ResponseWriter.client_view (io_Copy w src) =
  (ResponseWriter.committed w, deliver w (concat_str (Reader.pending src))).
Proof.
  intros Hc. unfold io_Copy, ResponseWriter.client_view.
  destruct (concat_str (Reader.pending src)) as [|c data] eqn:E.
  - now rewrite deliver_empty.
  - pose proof (Write_deliver (String c data) "" w Hc) as [Hcw Hdw].
    rewrite append_nil_r in Hdw. rewrite Hcw. f_equal.
    destruct (snd (ResponseWriter.Write (String c data) w)).
    + now rewrite <- Hdw, deliver_empty.
    + exact Hdw.
Qed.

(** The relay of a response gives the client the same status, headers
    and body with and without response logging, when the writer can
    flush or the response is not a stream. *)
Lemma relay_response_view (env : Env) (s s' : ProxyServer.t) (id : string)
  (resp : Response.t) (w : ResponseWriter.t) (wd wd' : World) :
  ResponseWriter.flusher w = true \/ isStreaming resp = false ->
  Config.LogResponses (ProxyServer.Config s') = false ->
  ResponseWriter.client_view (fst (relay_response env s id resp w wd)) =
  ResponseWriter.client_view (fst (relay_response env s' id resp w wd')).
Proof.
  intros Hgate Hoff. unfold relay_response.
  set (w1 := ResponseWriter.WriteHeader _ _).
  assert (Hc1 : ResponseWriter.committed w1 <> None) by apply committed_WriteHeader.
  destruct (isStreaming resp) eqn:Es.
  - destruct Hgate as [Hfl|Hfl]; [|discriminate].
    unfold relay_stream. rewrite Hoff.
    destruct (Config.LogResponses (ProxyServer.Config s)); [|reflexivity].
    assert (Hf1 : ResponseWriter.flusher w1 = true).
    { subst w1. now rewrite flusher_WriteHeader. }
    rewrite Hf1. simpl negb. cbv iota.
    destruct (stream_loop_deliver env s id resp
                (S (Reader.size (Response.Body resp))) (Response.Body resp) w1 wd)
      as (w' & wd2 & Hrun & Hcw & Hbw); [lia | exact Hc1 |].
    rewrite Hrun. simpl fst. rewrite io_Copy_deliver by exact Hc1.
    unfold ResponseWriter.client_view. now rewrite Hcw, Hbw.
  - unfold relay_buffered.
    destruct (Reader.ReadAll (Response.Body resp)) as [data [err|]]; reflexivity.
Qed.

(** C6, counterexample: an event stream relayed through a writer that
    cannot flush.  With logging on the client gets the text of the local
    error as body, with logging off the body of the upstream. *)
Lemma logging_changes_unflushable_stream :
  ~ logging_transparent_as_stated (Sample.env_of Sample.sse) (Sample.server true)
      (ResponseWriter.fresh false None) (Sample.request []) start.
Proof.
  unfold logging_transparent_as_stated. vm_compute. intros H. discriminate H.
Qed.

(** C6, amended.  When the response writer can flush, or no upstream
    response is classified as streaming, the status, the headers and the
    body that the client observes are the same with both logging toggles
    on and with both off. *)
Theorem logging_transparent (env : Env) (s : ProxyServer.t)
  (w : ResponseWriter.t) (r : Request.t) (wd : World) :
  ResponseWriter.flusher w = true \/
  (forall q resp, Do env q = inr resp -> isStreaming resp = false) ->
  ResponseWriter.client_view (fst (ServeHTTP env (with_logging true s) w r wd)) =
  ResponseWriter.client_view (fst (ServeHTTP env (with_logging false s) w r wd)).
Proof.
  intros Hgate. unfold ServeHTTP.
  destruct (assign_request_id env r wd) as [[id r1] wd1].
  destruct (read_request_body r1) as [[bodyBytes r2]|]; [|reflexivity].
  change (build_proxy_request env (with_logging true s) r2 bodyBytes)
    with (build_proxy_request env s r2 bodyBytes).
  change (build_proxy_request env (with_logging false s) r2 bodyBytes)
    with (build_proxy_request env s r2 bodyBytes).
  destruct (build_proxy_request env s r2 bodyBytes) as [err|q]; [reflexivity|].
  destruct (Do env q) as [err|resp] eqn:EDo; [reflexivity|].
  apply relay_response_view; [|reflexivity].
  destruct Hgate as [Hf|Hns]; [now left | right; now apply (Hns q)].
Qed.

(** The sample server relays an event stream through a flushing writer
    alike with and without logging. *)
Lemma logging_transparent_witness :
  ResponseWriter.client_view
    (fst (ServeHTTP (Sample.env_of Sample.sse) (with_logging true (Sample.server true))
            (ResponseWriter.fresh true None) (Sample.request []) start)) =
  ResponseWriter.client_view
    (fst (ServeHTTP (Sample.env_of Sample.sse) (with_logging false (Sample.server true))
            (ResponseWriter.fresh true None) (Sample.request []) start)).
Proof.
  apply (logging_transparent (Sample.env_of Sample.sse) (Sample.server true)
           (ResponseWriter.fresh true None) (Sample.request []) start).
  left. reflexivity.
Defined.

(** ** Concurrent calls of the recorder *)

Lemma sink_content_writes_to (k : Sink) (evs : list Event) :
  sink_content k evs = concat_str (writes_to k evs).
Proof.
  unfold sink_content, writes_to. f_equal.
  induction evs as [|ev evs IH]; simpl; [reflexivity|].
  rewrite IH. destruct ev as [j d| | | |]; try reflexivity.
  destruct j, k; reflexivity.
Qed.

Lemma concat_str_app (a b : list string) :
  concat_str (a ++ b) = concat_str a ++ concat_str b.
Proof.
  induction a as [|x a IH]; simpl; [reflexivity|].
  now rewrite IH, append_assoc.
Qed.

Lemma interleave_app_left {A : Type} (x l1 l2 l : list A) :
  interleave l1 l2 l -> interleave (x ++ l1) l2 (x ++ l).
Proof.
  intros H. induction x as [|a x IH]; simpl; [exact H | now constructor].
Qed.

Lemma interleave_app_right {A : Type} (x l1 l2 l : list A) :
  interleave l1 l2 l -> interleave l1 (x ++ l2) (x ++ l).
Proof.
  intros H. induction x as [|a x IH]; simpl; [exact H | now constructor].
Qed.

Lemma interleave_flat_map {A B : Type} (f : A -> list B) (l1 l2 l : list A) :
  interleave l1 l2 l -> interleave (flat_map f l1) (flat_map f l2) (flat_map f l).
Proof.
  induction 1 as [|a l1 l2 l _ IH|a l1 l2 l _ IH]; simpl.
  - constructor.
  - now apply interleave_app_left.
  - now apply interleave_app_right.
Qed.

Lemma interleave_nil_l {A : Type} (l2 l : list A) : interleave [] l2 l -> l = l2.
Proof.
  intros H. remember [] as l1 eqn:E.
  induction H as [|a l1 l2 l _ IH|a l1 l2 l _ IH]; [reflexivity | discriminate |].
  now rewrite IH.
Qed.

Lemma interleave_nil_r {A : Type} (l1 l : list A) : interleave l1 [] l -> l = l1.
Proof.
  intros H. remember [] as l2 eqn:E.
  induction H as [|a l1 l2 l _ IH|a l1 l2 l _ IH]; [reflexivity | | discriminate].
  now rewrite IH.
Qed.

(** Two sequences of at most one step each follow one another whole. *)
Lemma interleave_short {A : Type} (l1 l2 l : list A) :
  interleave l1 l2 l ->
  (List.length l1 <= 1)%nat -> (List.length l2 <= 1)%nat ->
  l = (l1 ++ l2)%list \/ l = (l2 ++ l1)%list.
Proof.
  intros H H1 H2. inversion H as [|a m1 m2 m Hm|a m1 m2 m Hm]; subst.
  - now left.
  - destruct m1; [|simpl in H1; lia].
    apply interleave_nil_l in Hm. subst. now left.
  - destruct m2; [|simpl in H2; lia].
    apply interleave_nil_r in Hm. subst. now right.
Qed.

Lemma call_events_writes (env : Env) (l : RequestLogger.t) (c : LogCall) (t : nat) :
  exists logData, call_events env l c t = sink_writes l logData.
Proof.
  destruct c as [r body|reqID resp body]; unfold call_events.
  - unfold LogRequest. simpl.
    destruct (Header.Get (Request.Header r) "X-Request-ID" =? "");
      eexists; reflexivity.
  - eexists. reflexivity.
Qed.

Lemma sink_writes_once (l : RequestLogger.t) (logData : string) (k : Sink) :
  (List.length (writes_to k (sink_writes l logData)) <= 1)%nat.
Proof.
  unfold sink_writes.
  destruct (_ && _); destruct (RequestLogger.LogToStdout l); destruct k; simpl; lia.
Qed.

Lemma sink_writes_only_write (l : RequestLogger.t) (logData : string) :
  Forall (fun ev => match ev with EvWrite _ _ => True | _ => False end)
    (sink_writes l logData).
Proof.
  unfold sink_writes.
  destruct (_ && _); destruct (RequestLogger.LogToStdout l); simpl;
    repeat constructor.
Qed.

(** C9, counterexample: the sample logger writes the record of a
    request to its sinks without holding a lock. *)
Lemma recorder_writes_without_lock :
  ~ serialized_by_lock_as_stated (Sample.env_of Sample.json) Sample.logger
      (CallRequest (Sample.request []) "{}").
Proof.
  unfold serialized_by_lock_as_stated. vm_compute. intros H. discriminate H.
Qed.

(** C9, amended.  A call of [LogRequest] or [LogResponse] takes no lock:
    its only events are write calls, at most one on each sink, carrying
    the whole record.  Hence, however the write calls of two concurrent
    recorder calls follow one another, each sink holds the record of the
    one whole and then the record of the other whole. *)
Theorem records_interleave_whole (env : Env) (l : RequestLogger.t)
  (c1 c2 : LogCall) (t1 t2 : nat) (evs : list Event) (k : Sink) :
  interleave (call_events env l c1 t1) (call_events env l c2 t2) evs ->
  (sink_content k evs =
   sink_content k (call_events env l c1 t1) ++ sink_content k (call_events env l c2 t2)
   \/
   sink_content k evs =
   sink_content k (call_events env l c2 t2) ++ sink_content k (call_events env l c1 t1))
  /\ Forall (fun ev => match ev with EvWrite _ _ => True | _ => False end) evs.
Proof.
  intros Hil.
  destruct (call_events_writes env l c1 t1) as [d1 E1].
  destruct (call_events_writes env l c2 t2) as [d2 E2].
  rewrite E1, E2 in *.
  split.
  - rewrite !sink_content_writes_to.
    destruct (interleave_short _ _ _ (interleave_flat_map _ _ _ _ Hil)
                (sink_writes_once l d1 k) (sink_writes_once l d2 k)) as [H|H];
      [left | right]; unfold writes_to; rewrite H; apply concat_str_app.
  - pose proof (sink_writes_only_write l d1) as H1.
    pose proof (sink_writes_only_write l d2) as H2.
    clear E1 E2. induction Hil; [constructor | |].
    + inversion H1; subst. constructor; [assumption | now apply IHHil].
    + inversion H2; subst. constructor; [assumption | now apply IHHil].
Qed.

(** Two calls of the sample logger whose writes alternate: the file
    holds the record of the request, then that of the response. *)
Lemma records_interleave_whole_witness :
  sink_content SinkFile SampleCalls.alternating =
  sink_content SinkFile SampleCalls.request_events
  ++ sink_content SinkFile SampleCalls.response_events
  \/
  sink_content SinkFile SampleCalls.alternating =
  sink_content SinkFile SampleCalls.response_events
  ++ sink_content SinkFile SampleCalls.request_events.
Proof.
  apply (records_interleave_whole (Sample.env_of Sample.json) Sample.logger
           (CallRequest (Sample.request []) "{}")
           (CallResponse "req-1" Sample.json "{}") 0 1
           SampleCalls.alternating SinkFile).
  vm_compute. repeat constructor.
Defined.


(** * Further properties of the handler *)

(** ** The four ways a call can go *)

Lemma ServeHTTP_course (env : Env) (s : ProxyServer.t) (w : ResponseWriter.t)
  (r : Request.t) (wd : World) :
  exists id r1 wd1,
    assign_request_id env r wd = (id, r1, wd1) /\
    ((read_request_body r1 = None /\
      ServeHTTP env s w r wd =
      (http_Error w "Error reading request body" StatusInternalServerError, wd1))
     \/
     exists bodyBytes r2,
       read_request_body r1 = Some (bodyBytes, r2) /\
       ((exists err,
           build_proxy_request env s r2 bodyBytes = inl err /\
           ServeHTTP env s w r wd =
           (http_Error w ("Error creating proxy request: " ++ err)
              StatusInternalServerError,
            after_request_log env s r2 bodyBytes wd1))
        \/
        (exists q,
           build_proxy_request env s r2 bodyBytes = inr q /\
           ServeHTTP env s w r wd =
           match Do env q with
           | inl err =>
               (http_Error w ("Error forwarding request to OpenAI API: " ++ err)
                  StatusBadGateway,
                emit [EvDo q] (after_request_log env s r2 bodyBytes wd1))
           | inr resp =>
               relay_response env s id resp w
                 (emit [EvDo q] (after_request_log env s r2 bodyBytes wd1))
           end))).
Proof.
  unfold ServeHTTP, after_request_log.
  destruct (assign_request_id env r wd) as [[id r1] wd1].
  exists id, r1, wd1. split; [reflexivity|].
  destruct (read_request_body r1) as [[bodyBytes r2]|]; [right | now left].
  exists bodyBytes, r2. split; [reflexivity|].
  destruct (build_proxy_request env s r2 bodyBytes) as [err|q].
  - left. now exists err.
  - right. now exists q.
Qed.

Lemma assign_request_id_fields (env : Env) (r : Request.t) (wd : World)
  (id : string) (r1 : Request.t) (wd1 : World) :
  assign_request_id env r wd = (id, r1, wd1) ->
  Request.Method r1 = Request.Method r /\
  Request.Path r1 = Request.Path r /\
  Request.RawQuery r1 = Request.RawQuery r /\
  Request.Body r1 = Request.Body r /\
  Request.Header r1 =
  (if Header.Get (Request.Header r) "X-Request-ID" =? ""
   then Header.Set_ (Request.Header r) "X-Request-ID"
          ("req-" ++ fmt_d (UnixNano (now env (tick wd))))
   else Request.Header r).
Proof.
  unfold assign_request_id.
  destruct (Header.Get (Request.Header r) "X-Request-ID" =? "");
    intros H; injection H as _ <- _; repeat split.
Qed.

Lemma read_request_body_spec (r1 r2 : Request.t) (bodyBytes : string) :
  read_request_body r1 = Some (bodyBytes, r2) ->
  Request.Method r2 = Request.Method r1 /\
  Request.Path r2 = Request.Path r1 /\
  Request.RawQuery r2 = Request.RawQuery r1 /\
  Request.Header r2 = Request.Header r1 /\
  bodyBytes =
  match Request.Body r1 with
  | None => ""
  | Some b => concat_str (Reader.pending b)
  end.
Proof.
  unfold read_request_body. destruct (Request.Body r1) as [b|].
  - unfold Reader.ReadAll. destruct (Reader.final b); [|discriminate].
    intros H. injection H as <- <-. repeat split.
  - intros H. injection H as <- <-. repeat split.
Qed.

Lemma read_request_body_fails (r1 : Request.t) :
  read_request_body r1 = None <->
  exists b msg, Request.Body r1 = Some b /\ Reader.final b = Reader.Failure msg.
Proof.
  unfold read_request_body, Reader.ReadAll. split.
  - destruct (Request.Body r1) as [b|]; [|discriminate].
    destruct (Reader.final b) as [|msg] eqn:E; [discriminate|].
    intros _. now exists b, msg.
  - intros (b & msg & -> & ->). reflexivity.
Qed.

Lemma build_proxy_request_spec (env : Env) (s : ProxyServer.t) (r : Request.t)
  (bodyBytes : string) :
  build_proxy_request env s r bodyBytes =
  match NewRequest_error env (Request.Method r) (targetURL s r) with
  | Some err => inl err
  | None =>
      inr {| ProxyReq.Method := Request.Method r;
             ProxyReq.URL := targetURL s r;
             ProxyReq.Header :=
               outbound_header (Config.OpenAIAPIKey (ProxyServer.Config s))
                 (Request.Header r);
             ProxyReq.Body := bodyBytes |}
  end.
Proof. reflexivity. Qed.


(** ** The events of the relay of a response *)

Lemma Read_bound (k : nat) (src : Reader.t) :
  (String.length (fst (fst (Reader.Read k src))) <= k)%nat.
Proof.
  unfold Reader.Read. destruct (Reader.pending src) as [|c rest]; simpl; [lia|].
  destruct (String.length c <=? k)%nat eqn:E; simpl.
  - now apply Nat.leb_le.
  - apply Nat.leb_gt in E. rewrite length_slice_to; lia.
Qed.

Lemma sink_writes_relay_event (l : RequestLogger.t) (id ts : string)
  (resp : Response.t) (body : string) :
  (isStreaming resp = true -> (0 < String.length body <= bufferSize)%nat) ->
  Forall (relay_event l id resp) (sink_writes l (response_record id ts resp body)).
Proof.
  intros Hb. apply Forall_forall. intros ev Hin.
  assert (Hw : exists k d, ev = EvWrite k d).
  { pose proof (sink_writes_only_write l (response_record id ts resp body)) as Hf.
    rewrite Forall_forall in Hf. specialize (Hf ev Hin).
    destruct ev; try contradiction. now eexists _, _. }
  destruct Hw as (k & d & ->). simpl. now exists ts, body.
Qed.

Lemma stream_loop_trace (env : Env) (s : ProxyServer.t) (id : string)
  (resp : Response.t) (fuel : nat) :
  forall src w wd w' wd',
    stream_loop env s fuel id resp src w wd = Some (w', wd') ->
    exists evs,
      events wd' = (events wd ++ evs)%list /\
      Forall (relay_event (ProxyServer.Logger s) id resp) evs.
Proof.
  induction fuel as [|fuel IH]; intros src w wd w' wd'; simpl; [discriminate|].
  pose proof (Read_bound bufferSize src) as Hlen.
  destruct (Reader.Read bufferSize src) as [[chunk err] src']. simpl in Hlen.
  destruct (0 <? String.length chunk)%nat eqn:Epos.
  - apply Nat.ltb_lt in Epos.
    assert (Hrec : Forall (relay_event (ProxyServer.Logger s) id resp)
                     (sink_writes (ProxyServer.Logger s)
                        (response_record id (RFC3339 (now env (tick wd))) resp chunk)))
      by (apply sink_writes_relay_event; intros _; lia).
    destruct (ResponseWriter.Write chunk w) as [w1 [|]].
    + destruct err as [[|msg]|].
      * intros H. injection H as <- <-. eexists. split; [apply events_LogResponse|].
        exact Hrec.
      * intros H. injection H as <- <-. simpl. eexists. split.
        -- rewrite <- app_assoc. reflexivity.
        -- apply Forall_app. split; [exact Hrec|]. constructor; [exact I | constructor].
      * intros H. apply IH in H. destruct H as [evs [He Hf]].
        rewrite events_LogResponse in He. eexists. split.
        -- rewrite He, <- app_assoc. reflexivity.
        -- apply Forall_app. now split.
    + intros H. injection H as <- <-. simpl. eexists. split; [reflexivity|].
      constructor; [exact I | constructor].
  - destruct err as [[|msg]|].
    + intros H. injection H as <- <-. exists []. split; [now rewrite app_nil_r|].
      constructor.
    + intros H. injection H as <- <-. simpl. eexists. split; [reflexivity|].
      constructor; [exact I | constructor].
    + apply IH.
Qed.

Lemma relay_response_trace (env : Env) (s : ProxyServer.t) (id : string)
  (resp : Response.t) (w : ResponseWriter.t) (wd : World) :
  exists evs,
    events (snd (relay_response env s id resp w wd)) = (events wd ++ evs)%list /\
    Forall (relay_event (ProxyServer.Logger s) id resp) evs /\
    (Config.LogResponses (ProxyServer.Config s) = false -> records evs = []).
Proof.
  assert (Hnone : forall wd0 : World,
             exists evs,
               events wd0 = (events wd0 ++ evs)%list /\
               Forall (relay_event (ProxyServer.Logger s) id resp) evs /\
               (Config.LogResponses (ProxyServer.Config s) = false -> records evs = [])).
  { intros wd0. exists []. rewrite app_nil_r.
    split; [reflexivity|]. split; [constructor | reflexivity]. }
  unfold relay_response. destruct (isStreaming resp) eqn:Es.
  - unfold relay_stream.
    destruct (Config.LogResponses (ProxyServer.Config s)) eqn:El; [|apply Hnone].
    match goal with |- context [negb ?b] => destruct b end; simpl negb; cbv iota;
      [|apply Hnone].
    match goal with
    | |- context [stream_loop ?e ?s ?f ?i ?r ?b ?w ?d] =>
        destruct (stream_loop e s f i r b w d) as [[w' wd']|] eqn:E
    end; [|apply Hnone].
    simpl. destruct (stream_loop_trace _ _ _ _ _ _ _ _ _ _ E) as (evs & He & Hf).
    exists evs. split; [exact He|]. split; [exact Hf | discriminate].
  - unfold relay_buffered.
    destruct (Reader.ReadAll (Response.Body resp)) as [data [err|]]; simpl.
    + eexists. split; [reflexivity|]. split; [|reflexivity].
      constructor; [exact I | constructor].
    + destruct (Config.LogResponses (ProxyServer.Config s)) eqn:El; [|apply Hnone].
      eexists. split; [apply events_LogResponse|]. split; [|discriminate].
      apply sink_writes_relay_event. rewrite Es. discriminate.
Qed.

Lemma relay_event_not_Do (l : RequestLogger.t) (id : string) (resp : Response.t)
  (evs : list Event) : Forall (relay_event l id resp) evs -> dispatched evs = [].
Proof.
  induction 1 as [|ev evs Hev _ IH]; [reflexivity|].
  simpl. rewrite IH. destruct ev; simpl in *; try reflexivity; contradiction.
Qed.

Lemma dispatched_app (a b : list Event) :
  dispatched (a ++ b) = (dispatched a ++ dispatched b)%list.
Proof. unfold dispatched. apply flat_map_app. Qed.

Lemma records_app (a b : list Event) :
  records (a ++ b) = (records a ++ records b)%list.
Proof. unfold records. apply flat_map_app. Qed.

Lemma dispatched_sink_writes (l : RequestLogger.t) (data : string) :
  dispatched (sink_writes l data) = [].
Proof.
  unfold sink_writes.
  destruct (_ && _); destruct (RequestLogger.LogToStdout l); reflexivity.
Qed.

(** ** What goes upstream *)

Lemma lower_byte_idem (c : ascii) : lower_byte (lower_byte c) = lower_byte c.
Proof. destruct c as [[] [] [] [] [] [] [] []]; reflexivity. Qed.

Lemma lower_upper_byte (c : ascii) : lower_byte (upper_byte c) = lower_byte c.
Proof. destruct c as [[] [] [] [] [] [] [] []]; reflexivity. Qed.

Lemma ToLower_canon_from (up : bool) (a : string) :
  ToLower (textproto.canon_from up a) = ToLower a.
Proof.
  revert up. induction a as [|c a IH]; intros up; simpl; [reflexivity|].
  rewrite IH. destruct up; now rewrite ?lower_upper_byte, ?lower_byte_idem.
Qed.

(** Canonicalising a header name changes the case of letters only. *)
Lemma ToLower_Canonical (a : string) :
  ToLower (textproto.CanonicalMIMEHeaderKey a) = ToLower a.
Proof.
  unfold textproto.CanonicalMIMEHeaderKey.
  destruct (textproto.all_valid a); [apply ToLower_canon_from | reflexivity].
Qed.

Lemma names_store (k k' : string) (vs : list string) (h : Header.t) :
  In k' (names (Header.store k vs h)) -> k' = k \/ In k' (names h).
Proof.
  unfold names. induction h as [|[k0 old] h IH]; simpl.
  - intros [<-|[]]. now left.
  - destruct (k0 =? k); simpl; intros [<-|Hin]; auto.
    destruct (IH Hin); auto.
Qed.

Lemma names_fold_Add (name k : string) (values : list string) :
  forall d,
    In k (names (fold_left (fun d v => Header.Add d name v) values d)) ->
    k = textproto.CanonicalMIMEHeaderKey name \/ In k (names d).
Proof.
  induction values as [|v values IH]; intros d; simpl; [now right|].
  intros Hin. destruct (IH _ Hin) as [->|Hin']; [now left|].
  unfold Header.Add in Hin'. now apply names_store in Hin'.
Qed.

(** The names that the copy loop leaves are those that were there and
    the canonical forms of the copied names that it does not skip. *)
Lemma names_copy_headers (skip : string -> bool) (k : string) (src : Header.t) :
  forall dst,
    In k (names (copy_headers skip src dst)) ->
    In k (names dst) \/
    exists name, In name (names src) /\ skip name = false /\
                 k = textproto.CanonicalMIMEHeaderKey name.
Proof.
  unfold copy_headers.
  induction src as [|[name values] src IH]; intros dst; simpl; [now left|].
  intros Hin. destruct (IH _ Hin) as [Hd|(n & Hn & Hs & ->)].
  - destruct (skip name) eqn:Es; [now left|].
    destruct (names_fold_Add _ _ _ _ Hd) as [->|Hd']; [|now left].
    right. exists name. repeat split; [now left | exact Es].
  - right. exists n. repeat split; [now right | exact Hs].
Qed.

(** X1.  No header of the outbound request is named [Host], in any
    letter case, whatever the inbound request carries. *)
Theorem host_never_forwarded (env : Env) (s : ProxyServer.t)
  (w : ResponseWriter.t) (r : Request.t) (wd : World) (q : ProxyReq.t) :
  In (EvDo q) (events (snd (ServeHTTP env s w r wd))) ->
  ~ In (EvDo q) (events wd) ->
  forall name, In name (names (ProxyReq.Header q)) -> ToLower name <> "host".
Proof.
  intros Hin Hold name Hname.
  rewrite (ServeHTTP_outbound_header _ _ _ _ _ _ Hin Hold) in Hname.
  unfold outbound_header in Hname.
  assert (Hcopy : forall h, In name (names (copy_headers is_host h [])) ->
                            ToLower name <> "host").
  { intros h Hc. apply names_copy_headers in Hc.
    destruct Hc as [[]|(n & _ & Hs & ->)].
    rewrite ToLower_Canonical. unfold is_host in Hs. now apply String.eqb_neq. }
  destruct (_ && _).
  - unfold Header.Set_ in Hname. apply names_store in Hname.
    destruct Hname as [->|Hname]; [discriminate | now apply (Hcopy _ Hname)].
  - now apply (Hcopy _ Hname).
Qed.

Lemma host_never_forwarded_witness :
  ToLower "Accept" <> "host".
Proof.
  apply (host_never_forwarded (Sample.env_of Sample.json) (Sample.server false)
           (ResponseWriter.fresh true None)
           (Sample.request [("HOST", ["localhost:8080"]); ("accept", ["*/*"])])
           start
           (Sample.outbound [("HOST", ["localhost:8080"]); ("accept", ["*/*"])])).
  - vm_compute. left. reflexivity.
  - simpl. tauto.
  - vm_compute. left. reflexivity.
Defined.

Lemma index_copy_not_host (key : string) (src : Header.t) :
  ToLower (textproto.CanonicalMIMEHeaderKey key) <> "host" ->
  Header.index (textproto.CanonicalMIMEHeaderKey key) (copy_headers is_host src []) =
  Header.carried src key.
Proof.
  intros HK. rewrite index_copy_headers. simpl.
  unfold Header.carried, Header.gather.
  do 2 f_equal. apply filter_ext. intros [name values]. simpl.
  destruct (is_host name) eqn:E; simpl; [|reflexivity].
  symmetry. apply String.eqb_neq. intros Heq. apply HK.
  rewrite <- Heq, ToLower_Canonical. unfold is_host in E.
  now apply String.eqb_eq.
Qed.

(** X2.  Every inbound header other than [Host], [Authorization] and
    [X-Request-Id] goes upstream under its canonical name with all its
    values, in order: the values of the inbound entries whose name has
    that canonical form. *)
Theorem headers_forwarded (env : Env) (s : ProxyServer.t)
  (w : ResponseWriter.t) (r : Request.t) (wd : World) (q : ProxyReq.t)
  (key : string) :
  In (EvDo q) (events (snd (ServeHTTP env s w r wd))) ->
  ~ In (EvDo q) (events wd) ->
  ToLower key <> "host" ->
  textproto.CanonicalMIMEHeaderKey key <> "Authorization" ->
  textproto.CanonicalMIMEHeaderKey key <> "X-Request-Id" ->
  Header.index (textproto.CanonicalMIMEHeaderKey key) (ProxyReq.Header q) =
  Header.carried (Request.Header r) key.
Proof.
  intros Hin Hold Hhost Hauth Hid.
  rewrite (ServeHTTP_outbound_header _ _ _ _ _ _ Hin Hold).
  rewrite index_outbound_header_other by exact Hauth.
  rewrite index_copy_not_host by (now rewrite ToLower_Canonical).
  destruct (Header.Get (Request.Header r) "X-Request-ID" =? ""); [|reflexivity].
  unfold Header.carried, Header.Set_. apply gather_store_other.
  change (textproto.CanonicalMIMEHeaderKey
            (textproto.CanonicalMIMEHeaderKey "X-Request-ID")) with "X-Request-Id".
  apply String.eqb_neq. congruence.
Qed.

Lemma headers_forwarded_witness :
  Header.index "Accept"
    (ProxyReq.Header
       (Sample.outbound [("accept", ["text/plain"]); ("Accept", ["*/*"; "a/b"])]))
  = ["text/plain"; "*/*"; "a/b"].
Proof.
  apply (headers_forwarded (Sample.env_of Sample.json) (Sample.server false)
           (ResponseWriter.fresh true None)
           (Sample.request [("accept", ["text/plain"]); ("Accept", ["*/*"; "a/b"])])
           start
           (Sample.outbound [("accept", ["text/plain"]); ("Accept", ["*/*"; "a/b"])])
           "accept").
  - vm_compute. left. reflexivity.
  - simpl. tauto.
  - vm_compute. discriminate.
  - vm_compute. discriminate.
  - vm_compute. discriminate.
Defined.

(** X3.  The outbound request has the method of the inbound one, the
    URL [base + path] followed by [?query] when the query is not empty,
    and as body the bytes of the inbound body in the order in which they
    were read (no body when the inbound request has none). *)
Theorem outbound_line_and_body (env : Env) (s : ProxyServer.t)
  (w : ResponseWriter.t) (r : Request.t) (wd : World) (q : ProxyReq.t) :
  In (EvDo q) (events (snd (ServeHTTP env s w r wd))) ->
  ~ In (EvDo q) (events wd) ->
  ProxyReq.Method q = Request.Method r /\
  ProxyReq.URL q =
  Config.OpenAIBaseURL (ProxyServer.Config s) ++ Request.Path r
  ++ (if Request.RawQuery r =? "" then "" else "?" ++ Request.RawQuery r) /\
  ProxyReq.Body q =
  match Request.Body r with
  | None => ""
  | Some b => concat_str (Reader.pending b)
  end.
Proof.
  intros Hin Hold.
  destruct (ServeHTTP_dispatch _ _ _ _ _ _ Hin Hold)
    as (id & r1 & wd1 & bodyBytes & r2 & Ha & Hb & Hq).
  apply assign_request_id_fields in Ha. destruct Ha as (Hm1 & Hp1 & Hq1 & Hb1 & _).
  apply read_request_body_spec in Hb. destruct Hb as (Hm2 & Hp2 & Hq2 & _ & Hbody).
  rewrite build_proxy_request_spec in Hq.
  destruct (NewRequest_error env _ _); [discriminate|].
  injection Hq as <-. simpl. unfold targetURL.
  rewrite Hm2, Hm1, Hp2, Hp1, Hq2, Hq1, Hbody, Hb1.
  split; [reflexivity|]. split; [|reflexivity].
  destruct (Request.RawQuery r =? ""); simpl.
  - now rewrite append_nil_r.
  - now rewrite append_assoc.
Qed.

Lemma outbound_line_and_body_witness :
  ProxyReq.Body (Sample.outbound []) = concat_str ["{}"].
Proof.
  apply (outbound_line_and_body (Sample.env_of Sample.json) (Sample.server false)
           (ResponseWriter.fresh true None) (Sample.request []) start
           (Sample.outbound [])).
  - vm_compute. left. reflexivity.
  - simpl. tauto.
Defined.

(** ** Dispatch and its failures *)

Lemma after_request_log_trace (env : Env) (s : ProxyServer.t) (r : Request.t)
  (bodyBytes : string) (wd : World) :
  exists evs,
    events (after_request_log env s r bodyBytes wd) = (events wd ++ evs)%list /\
    dispatched evs = [] /\
    (Config.LogRequests (ProxyServer.Config s) = false -> evs = []) /\
    (RequestLogger.LogToFile (ProxyServer.Logger s) = false ->
     RequestLogger.LogToStdout (ProxyServer.Logger s) = false -> evs = []).
Proof.
  unfold after_request_log.
  destruct (Config.LogRequests (ProxyServer.Config s)).
  - unfold LogRequest.
    destruct (Header.Get (Request.Header r) "X-Request-ID" =? ""); simpl;
      eexists; (split; [reflexivity|]);
      (split; [apply dispatched_sink_writes|]);
      (split; [discriminate|]);
      intros Hf Hc; unfold sink_writes; now rewrite Hf, Hc.
  - exists []. rewrite app_nil_r. repeat split.
Qed.

(** X4.  A call hands at most one request to [client.Do]: nothing is
    retried, whatever the upstream answers. *)
Theorem dispatched_at_most_once (env : Env) (s : ProxyServer.t)
  (w : ResponseWriter.t) (r : Request.t) (wd : World) :
  exists evs,
    events (snd (ServeHTTP env s w r wd)) = (events wd ++ evs)%list /\
    (List.length (dispatched evs) <= 1)%nat.
Proof.
  destruct (ServeHTTP_course env s w r wd) as (id & r1 & wd1 & Ha & Hcourse).
  pose proof (assign_request_id_spec _ _ _ _ _ _ Ha) as (_ & _ & Hev & _).
  destruct Hcourse as [[_ ->]|(bodyBytes & r2 & _ & Hrest)].
  - exists []. simpl. rewrite Hev, app_nil_r. split; [reflexivity | lia].
  - destruct (after_request_log_trace env s r2 bodyBytes wd1)
      as (evs1 & He1 & Hd1 & _).
    destruct Hrest as [(err & _ & ->)|(q & _ & ->)].
    + exists evs1. simpl. rewrite He1, Hev, Hd1. split; [reflexivity | simpl; lia].
    + destruct (Do env q) as [err|resp].
      * exists (evs1 ++ [EvDo q])%list. simpl. rewrite He1, Hev, <- app_assoc.
        split; [reflexivity|]. rewrite dispatched_app, Hd1. simpl. lia.
      * destruct (relay_response_trace env s id resp w
                    (emit [EvDo q] (after_request_log env s r2 bodyBytes wd1)))
          as (evs2 & He2 & Hf2 & _).
        exists (evs1 ++ [EvDo q] ++ evs2)%list. rewrite He2. simpl.
        rewrite He1, Hev, <- !app_assoc. split; [reflexivity|].
        rewrite dispatched_app, Hd1. simpl.
        rewrite (relay_event_not_Do _ _ _ _ Hf2). simpl. lia.
Qed.


(** X5.  When [client.Do] fails, a client that has been sent nothing
    yet gets status 502 with a plain-text content type and the line
    [Error forwarding request to OpenAI API: <err>] as body; the
    dispatch is the last event of the call, so nothing is recorded or
    sent again after the failure. *)
Theorem transport_failure_is_bad_gateway (env : Env) (s : ProxyServer.t)
  (w : ResponseWriter.t) (r : Request.t) (wd : World) (q : ProxyReq.t)
  (err : string) :
  In (EvDo q) (events (snd (ServeHTTP env s w r wd))) ->
  ~ In (EvDo q) (events wd) ->
  Do env q = inl err ->
  ResponseWriter.committed w = None ->
  ResponseWriter.room w = None ->
  let run := ServeHTTP env s w r wd in
  (exists h,
     ResponseWriter.committed (fst run) = Some (502%Z, h) /\
     Header.Get h "Content-Type" = "text/plain; charset=utf-8") /\
  ResponseWriter.body (fst run) =
  ResponseWriter.body w ++ "Error forwarding request to OpenAI API: " ++ err ++ LF /\
  exists evs, events (snd run) = (evs ++ [EvDo q])%list.
Proof.
  intros Hin Hold HDo Hc Hr run.
  destruct (ServeHTTP_dispatch _ _ _ _ _ _ Hin Hold)
    as (id & r1 & wd1 & bodyBytes & r2 & Ha & Hb & Hq).
  subst run. rewrite (ServeHTTP_unfold _ _ _ _ _ _ _ _ _ _ _ Ha Hb Hq).
  cbv zeta. rewrite HDo. simpl fst. simpl snd.
  split; [now apply http_Error_fresh|]. split.
  - rewrite http_Error_body by exact Hr. reflexivity.
  - eexists. reflexivity.
Qed.

Lemma transport_failure_is_bad_gateway_witness :
  ResponseWriter.body
    (fst (ServeHTTP
            SampleFailures.refused
            (Sample.server true) (ResponseWriter.fresh true None)
            (Sample.request []) start))
  = "" ++ "Error forwarding request to OpenAI API: "
    ++ "dial tcp: connection refused" ++ LF.
Proof.
  apply (transport_failure_is_bad_gateway
           SampleFailures.refused
           (Sample.server true) (ResponseWriter.fresh true None)
           (Sample.request []) start (Sample.outbound [])
           "dial tcp: connection refused").
  - vm_compute. do 2 right. left. reflexivity.
  - simpl. tauto.
  - reflexivity.
  - reflexivity.
  - reflexivity.
Defined.

(** X6.  When [http.NewRequest] rejects the method or the target URL,
    the handler answers with [http.Error] and status 500, the text
    [Error creating proxy request: <err>], and dispatches nothing; the
    request has been recorded before, when request logging is on. *)
Theorem new_request_failure_is_local (env : Env) (s : ProxyServer.t)
  (w : ResponseWriter.t) (r : Request.t) (wd : World) (err : string) :
  (forall b, Request.Body r = Some b -> Reader.final b = Reader.EOF) ->
  NewRequest_error env (Request.Method r) (targetURL s r) = Some err ->
  let run := ServeHTTP env s w r wd in
  fst run =
  http_Error w ("Error creating proxy request: " ++ err) StatusInternalServerError /\
  dispatched (events (snd run)) = dispatched (events wd).
Proof.
  intros Hbody Herr run.
  destruct (ServeHTTP_course env s w r wd) as (id & r1 & wd1 & Ha & Hcourse).
  pose proof (assign_request_id_spec _ _ _ _ _ _ Ha) as (_ & _ & Hev & _).
  pose proof (assign_request_id_fields _ _ _ _ _ _ Ha) as (Hm1 & Hp1 & Hq1 & Hb1 & _).
  destruct Hcourse as [[Hfail _]|(bodyBytes & r2 & Hread & Hrest)].
  - apply read_request_body_fails in Hfail. destruct Hfail as (b & msg & Hb & Hf).
    rewrite Hb1 in Hb. rewrite (Hbody b Hb) in Hf. discriminate Hf.
  - pose proof (read_request_body_spec _ _ _ Hread) as (Hm2 & Hp2 & Hq2 & _ & _).
    assert (Hbuild : build_proxy_request env s r2 bodyBytes = inl err).
    { rewrite build_proxy_request_spec.
      replace (targetURL s r2) with (targetURL s r)
        by (unfold targetURL; now rewrite Hp2, Hp1, Hq2, Hq1).
      now rewrite Hm2, Hm1, Herr. }
    destruct Hrest as [(err' & Hb' & Hrun)|(q & Hb' & _)]; [|congruence].
    rewrite Hbuild in Hb'. injection Hb' as <-.
    subst run. rewrite Hrun. simpl. split; [reflexivity|].
    destruct (after_request_log_trace env s r2 bodyBytes wd1) as (evs1 & He1 & Hd1 & _).
    now rewrite He1, dispatched_app, Hd1, app_nil_r, Hev.
Qed.

Lemma new_request_failure_is_local_witness :
  dispatched
    (events
       (snd (ServeHTTP
               SampleFailures.rejecting
               (Sample.server true) (ResponseWriter.fresh true None)
               (Sample.request []) start)))
  = dispatched (events start).
Proof.
  apply (new_request_failure_is_local
           SampleFailures.rejecting
           (Sample.server true) (ResponseWriter.fresh true None)
           (Sample.request []) start "invalid URL escape").
  - intros b Hb. injection Hb as <-. reflexivity.
  - reflexivity.
Defined.

(** ** What comes back *)








(** ** The streaming loop, chunk by chunk *)







Lemma response_body_section_whole (body : string) :
  (0 < len body <= maxBodySize)%Z ->
  response_body_section body = "Body:" ++ LF ++ body ++ LF.
Proof.
  intros [Hpos Hcap]. unfold response_body_section.
  apply Z.ltb_lt in Hpos. rewrite Hpos.
  assert (Hle : (maxBodySize <? len body)%Z = false) by (apply Z.ltb_ge; exact Hcap).
  rewrite Hle. unfold Sprintln. now rewrite append_nil_r, !append_assoc.
Qed.

Lemma bufferSize_below_cap (body : string) :
  (0 < String.length body <= bufferSize)%nat -> (0 < len body <= maxBodySize)%Z.
Proof.
  unfold len. intros [Hpos Hle].
  assert (Hz : (Z.of_nat bufferSize <= maxBodySize)%Z) by (vm_compute; discriminate).
  lia.
Qed.

(** X11.  However the bytes of a stream arrive, every response record
    that the call writes after the dispatch holds a chunk of 1 to 4096
    bytes, on a sink of the logger; such a record is never truncated:
    its body section is the line [Body:] and the whole chunk. *)
Theorem stream_records_fit_buffer (env : Env) (s : ProxyServer.t)
  (w : ResponseWriter.t) (r : Request.t) (wd : World) (q : ProxyReq.t)
  (resp : Response.t) :
  In (EvDo q) (events (snd (ServeHTTP env s w r wd))) ->
  ~ In (EvDo q) (events wd) ->
  Do env q = inr resp ->
  isStreaming resp = true ->
  exists id pre evs,
    events (snd (ServeHTTP env s w r wd)) = (pre ++ EvDo q :: evs)%list /\
    Forall
      (fun ev =>
         match ev with
         | EvWrite _ _ =>
             exists ts chunk,
               In ev (sink_writes (ProxyServer.Logger s)
                        (response_record id ts resp chunk)) /\
               (0 < String.length chunk <= bufferSize)%nat /\
               response_body_section chunk = "Body:" ++ LF ++ chunk ++ LF
         | EvPrintf _ => True
         | _ => False
         end) evs.
Proof.
  intros Hin Hold HDo Hs.
  destruct (ServeHTTP_dispatch _ _ _ _ _ _ Hin Hold)
    as (id & r1 & wd1 & bodyBytes & r2 & Ha & Hb & Hq).
  rewrite (ServeHTTP_unfold _ _ _ _ _ _ _ _ _ _ _ Ha Hb Hq).
  cbv zeta. rewrite HDo.
  match goal with
  | |- context [relay_response env s id resp w ?d] =>
      destruct (relay_response_trace env s id resp w d) as (evs & He & Hf & _)
  end.
  exists id. eexists _, evs. split.
  - rewrite He. simpl. rewrite <- app_assoc. reflexivity.
  - eapply Forall_impl; [|exact Hf].
    intros [k d| | | |]; simpl; try tauto.
    intros (ts & chunk & Hw & Hlen). specialize (Hlen Hs).
    exists ts, chunk. split; [exact Hw|]. split; [exact Hlen|].
    apply response_body_section_whole. now apply bufferSize_below_cap.
Qed.

Lemma stream_records_fit_buffer_witness :
  exists id pre evs,
    events (snd (ServeHTTP (Sample.env_of SampleFailures.broken_sse)
                   (Sample.server true) (ResponseWriter.fresh true None)
                   (Sample.request []) start))
    = (pre ++ EvDo (Sample.outbound []) :: evs)%list /\
    Forall
      (fun ev =>
         match ev with
         | EvWrite _ _ =>
             exists ts chunk,
               In ev (sink_writes (ProxyServer.Logger (Sample.server true))
                        (response_record id ts SampleFailures.broken_sse chunk)) /\
               (0 < String.length chunk <= bufferSize)%nat /\
               response_body_section chunk = "Body:" ++ LF ++ chunk ++ LF
         | EvPrintf _ => True
         | _ => False
         end) evs.
Proof.
  apply (stream_records_fit_buffer (Sample.env_of SampleFailures.broken_sse)
           (Sample.server true) (ResponseWriter.fresh true None)
           (Sample.request []) start (Sample.outbound [])
           SampleFailures.broken_sse).
  - vm_compute. do 2 right. left. reflexivity.
  - simpl. tauto.
  - reflexivity.
  - reflexivity.
Defined.

(** ** Logging switched off *)

Lemma relay_event_no_sinks (l : RequestLogger.t) (id : string) (resp : Response.t)
  (evs : list Event) :
  RequestLogger.LogToFile l = false ->
  RequestLogger.LogToStdout l = false ->
  Forall (relay_event l id resp) evs -> records evs = [].
Proof.
  intros Hf Hc. induction 1 as [|ev evs Hev _ IH]; [reflexivity|].
  simpl. rewrite IH. destruct ev as [k d| | | |]; try reflexivity.
  simpl in Hev. destruct Hev as (ts & body & Hin & _).
  unfold sink_writes in Hin. rewrite Hf, Hc in Hin. contradiction.
Qed.

(** X12.  With both logging toggles off, or with a logger that has
    neither a file nor the console, a call writes nothing to any sink,
    whatever the request and the upstream's answer. *)
Theorem nothing_recorded_without_logging (env : Env) (s : ProxyServer.t)
  (w : ResponseWriter.t) (r : Request.t) (wd : World) :
  (Config.LogRequests (ProxyServer.Config s) = false /\
   Config.LogResponses (ProxyServer.Config s) = false) \/
  (RequestLogger.LogToFile (ProxyServer.Logger s) = false /\
   RequestLogger.LogToStdout (ProxyServer.Logger s) = false) ->
  exists evs,
    events (snd (ServeHTTP env s w r wd)) = (events wd ++ evs)%list /\
    records evs = [].
Proof.
  intros Hoff.
  destruct (ServeHTTP_course env s w r wd) as (id & r1 & wd1 & Ha & Hcourse).
  pose proof (assign_request_id_spec _ _ _ _ _ _ Ha) as (_ & _ & Hev & _).
  destruct Hcourse as [[_ ->]|(bodyBytes & r2 & _ & Hrest)].
  - exists []. simpl. now rewrite Hev, app_nil_r.
  - destruct (after_request_log_trace env s r2 bodyBytes wd1)
      as (evs1 & He1 & _ & Hq1 & Hs1).
    assert (Hnil : evs1 = []).
    { destruct Hoff as [[Hreq _]|[Hf Hc]]; [now apply Hq1 | now apply Hs1]. }
    subst evs1. rewrite app_nil_r in He1.
    destruct Hrest as [(err & _ & ->)|(q & _ & ->)].
    + exists []. simpl. now rewrite He1, Hev, app_nil_r.
    + destruct (Do env q) as [err|resp].
      * exists [EvDo q]. simpl. now rewrite He1, Hev.
      * destruct (relay_response_trace env s id resp w
                    (emit [EvDo q] (after_request_log env s r2 bodyBytes wd1)))
          as (evs2 & He2 & Hf2 & Hq2).
        exists (EvDo q :: evs2). rewrite He2. simpl.
        rewrite He1, Hev, <- app_assoc. split; [reflexivity|].
        destruct Hoff as [[_ Hresp]|[Hf Hc]];
          [now apply Hq2 | now apply (relay_event_no_sinks _ _ _ _ Hf Hc Hf2)].
Qed.

Lemma nothing_recorded_without_logging_witness :
  exists evs,
    events (snd (ServeHTTP (Sample.env_of Sample.sse) (Sample.server false)
                   (ResponseWriter.fresh true None) (Sample.request []) start))
    = (events start ++ evs)%list /\
    records evs = [].
Proof.
  apply (nothing_recorded_without_logging (Sample.env_of Sample.sse)
           (Sample.server false) (ResponseWriter.fresh true None)
           (Sample.request []) start).
  left. split; reflexivity.
Defined.

(** ** One id, in the logs and upstream *)


(** * Properties of the start-up code *)

(** ** The sinks of a new server *)

(** X14.  [NewProxyServer] fails exactly when a log file is configured
    and cannot be opened.  The server it returns keeps the
    configuration, and its logger hands every record to the file, with
    a newline added, exactly when a log file is configured, and to the
    console exactly when [LogToStdout] is set, in that order. *)
Theorem server_sinks_follow_config (opens : string -> bool) (config : Config.t) :
  (NewProxyServer opens config = None <->
   Config.RequestLogFile config <> "" /\
   opens (Config.RequestLogFile config) = false) /\
  forall s,
    NewProxyServer opens config = Some s ->
    ProxyServer.Config s = config /\
    forall logData,
      sink_writes (ProxyServer.Logger s) logData =
      ((if Config.RequestLogFile config =? "" then []
        else [EvWrite SinkFile (logData ++ LF)])
       ++ (if Config.LogToStdout config then [EvWrite SinkStdout logData] else []))%list.
Proof.
  unfold NewProxyServer, NewRequestLogger.
  destruct (Config.RequestLogFile config =? "") eqn:Ef.
  - apply String.eqb_eq in Ef. split.
    + split; [discriminate | intros [Hne _]; contradiction].
    + intros s H. injection H as <-. split; reflexivity.
  - apply String.eqb_neq in Ef.
    destruct (opens (Config.RequestLogFile config)) eqn:Eo.
    + split.
      * split; [discriminate | intros [_ H]; discriminate].
      * intros s H. injection H as <-. split; reflexivity.
    + split.
      * split; [intros _; now split | reflexivity].
      * discriminate.
Qed.

(** ** Booleans from the environment *)

Lemma ParseBool_false (str : string) :
  ParseBool str = Some false <->
  In str ["0"; "f"; "F"; "FALSE"; "false"; "False"].
Proof.
  unfold ParseBool. split.
  - destruct ((str =? "1") || (str =? "t") || (str =? "T") || (str =? "TRUE")
              || (str =? "true") || (str =? "True")); [discriminate|].
    destruct ((str =? "0") || (str =? "f") || (str =? "F") || (str =? "FALSE")
              || (str =? "false") || (str =? "False")) eqn:E; [|discriminate].
    intros _. rewrite !orb_true_iff, !String.eqb_eq in E. simpl.
    intuition auto.
  - simpl. intros [<-|[<-|[<-|[<-|[<-|[<-|[]]]]]]]; reflexivity.
Qed.

Lemma ParseBool_true (str : string) :
  ParseBool str = Some true <->
  In str ["1"; "t"; "T"; "TRUE"; "true"; "True"].
Proof.
  unfold ParseBool. split.
  - destruct ((str =? "1") || (str =? "t") || (str =? "T") || (str =? "TRUE")
              || (str =? "true") || (str =? "True")) eqn:E.
    + intros _. rewrite !orb_true_iff, !String.eqb_eq in E. simpl.
      intuition auto.
    + destruct ((str =? "0") || (str =? "f") || (str =? "F") || (str =? "FALSE")
                || (str =? "false") || (str =? "False")); intros H; discriminate H.
  - simpl. intros [<-|[<-|[<-|[<-|[<-|[<-|[]]]]]]]; reflexivity.
Qed.

Lemma parseBool_default_true (getenv : string -> string) (envVar : string) :
  fst (parseBool getenv envVar true) = false <->
  In (getenv envVar) ["0"; "f"; "F"; "FALSE"; "false"; "False"].
Proof.
  rewrite <- ParseBool_false. unfold parseBool.
  destruct (getenv envVar =? "") eqn:E.
  - apply String.eqb_eq in E. rewrite E. simpl. split; discriminate.
  - destruct (ParseBool (getenv envVar)) as [[|]|]; simpl;
      split; try discriminate; reflexivity.
Qed.

Lemma loadConfig_toggles (getenv : string -> string) :
  Config.LogRequests (fst (EnvConfig.loadConfig getenv)) =
  fst (parseBool getenv "LOG_REQUESTS" true) /\
  Config.LogResponses (fst (EnvConfig.loadConfig getenv)) =
  fst (parseBool getenv "LOG_RESPONSES" true) /\
  Config.LogToStdout (fst (EnvConfig.loadConfig getenv)) =
  fst (parseBool getenv "LOG_TO_STDOUT" true).
Proof.
  unfold EnvConfig.loadConfig.
  destruct (parseBool getenv "LOG_REQUESTS" true).
  destruct (parseBool getenv "LOG_RESPONSES" true).
  destruct (parseBool getenv "LOG_TO_STDOUT" true).
  repeat split.
Qed.

(** X15.  [loadConfig] of [main.go] switches a logging toggle off only
    when its environment variable is one of [0], [f], [F], [FALSE],
    [false], [False]; unset, or set to anything else (a word that
    [strconv.ParseBool] rejects, such as [no] or [off], included), the
    toggle stays on. *)
Theorem toggles_off_only_by_false_words (getenv : string -> string) :
  let config := fst (EnvConfig.loadConfig getenv) in
  let falses := ["0"; "f"; "F"; "FALSE"; "false"; "False"] in
  (Config.LogRequests config = false <-> In (getenv "LOG_REQUESTS") falses) /\
  (Config.LogResponses config = false <-> In (getenv "LOG_RESPONSES") falses) /\
  (Config.LogToStdout config = false <-> In (getenv "LOG_TO_STDOUT") falses).
Proof.
  intros config falses. subst config.
  destruct (loadConfig_toggles getenv) as (-> & -> & ->).
  repeat split; apply parseBool_default_true.
Qed.

(** ** Port and base URL *)

Lemma append_slash_nonempty (u : string) : (u ++ "/" =? "") = false.
Proof. now destruct u. Qed.

Lemma TrimSuffix_append (u suffix : string) : TrimSuffix (u ++ suffix) suffix = u.
Proof.
  unfold TrimSuffix. rewrite HasSuffix_append, length_append.
  replace (String.length u + String.length suffix - String.length suffix)%nat
    with (String.length u) by lia.
  apply slice_to_append.
Qed.

Lemma loadConfig_strings (getenv : string -> string) :
  Config.Port (fst (EnvConfig.loadConfig getenv)) =
  (if getenv "PORT" =? "" then "8080" else getenv "PORT") /\
  Config.OpenAIBaseURL (fst (EnvConfig.loadConfig getenv)) =
  (if getenv "OPENAI_BASE_URL" =? "" then "https://api.openai.com/v1"
   else TrimSuffix (getenv "OPENAI_BASE_URL") "/").
Proof.
  unfold EnvConfig.loadConfig.
  destruct (parseBool getenv "LOG_REQUESTS" true).
  destruct (parseBool getenv "LOG_RESPONSES" true).
  destruct (parseBool getenv "LOG_TO_STDOUT" true).
  split; reflexivity.
Qed.

(** X16.  [loadConfig] of [main.go] never leaves the port empty, takes
    the default base URL when [OPENAI_BASE_URL] is unset, and otherwise
    removes one trailing slash from it and no more: a value [u/] gives
    [u], also when [u] itself ends with a slash or is empty (the value
    [/] gives an empty base URL, not the default), and a value without a
    trailing slash is kept. *)
Theorem base_url_loses_one_slash (getenv : string -> string) :
  let config := fst (EnvConfig.loadConfig getenv) in
  Config.Port config <> "" /\
  (getenv "OPENAI_BASE_URL" = "" ->
   Config.OpenAIBaseURL config = "https://api.openai.com/v1") /\
  (forall u, getenv "OPENAI_BASE_URL" = u ++ "/" ->
             Config.OpenAIBaseURL config = u) /\
  (getenv "OPENAI_BASE_URL" <> "" ->
   HasSuffix (getenv "OPENAI_BASE_URL") "/" = false ->
   Config.OpenAIBaseURL config = getenv "OPENAI_BASE_URL").
Proof.
  intros config. subst config.
  destruct (loadConfig_strings getenv) as (-> & ->).
  split; [|split; [|split]].
  - destruct (getenv "PORT" =? "") eqn:E; [discriminate | now apply String.eqb_neq].
  - intros ->. reflexivity.
  - intros u ->. rewrite append_slash_nonempty. apply TrimSuffix_append.
  - intros Hne Hs. apply String.eqb_neq in Hne. rewrite Hne.
    unfold TrimSuffix. now rewrite Hs.
Qed.

(** ** Flags and environment *)

(** X17.  In [loadConfig] with flags, a command-line string (here the
    port) wins over the environment, but a logging toggle does not:
    [flag.Visit] runs before [flag.Parse] and so sees no flag, and
    whenever the environment variable holds a boolean that value is
    taken, whatever the command line says. *)
Theorem environment_overrides_toggle_flags (parsed : flag.FlagSet)
  (getenv : string -> string) (b : bool) :
  ParseBool (getenv "LOG_REQUESTS") = Some b ->
  let config := fst (FlagConfig.loadConfig parsed getenv) in
  Config.LogRequests config = b /\
  (flag.port parsed <> "" -> Config.Port config = flag.port parsed).
Proof.
  intros Hb config. subst config. unfold FlagConfig.loadConfig.
  change (flag.Visit flag.registered) with false. cbv iota. simpl negb.
  assert (Hreq : parseBool getenv "LOG_REQUESTS" (flag.req parsed) = (b, [])).
  { unfold parseBool. rewrite Hb.
    destruct (getenv "LOG_REQUESTS" =? "") eqn:E; [|reflexivity].
    apply String.eqb_eq in E. rewrite E in Hb. discriminate Hb. }
  rewrite Hreq.
  destruct (parseBool getenv "LOG_RESPONSES" (flag.resp parsed)).
  destruct (parseBool getenv "LOG_TO_STDOUT" (flag.stdout parsed)).
  simpl. split; [reflexivity|].
  intros Hp. apply String.eqb_neq in Hp. rewrite Hp, andb_false_r. now rewrite Hp.
Qed.

(** The command line says [-req=false -p 9000], the environment says
    [LOG_REQUESTS=true]: requests are logged. *)
Lemma environment_overrides_toggle_flags_witness :
  Config.LogRequests
    (fst (FlagConfig.loadConfig SampleFailures.cmdline SampleFailures.environment))
  = true.
Proof.
  apply (environment_overrides_toggle_flags SampleFailures.cmdline
           SampleFailures.environment true).
  reflexivity.
Defined.

(** * The upstream credential and the logs *)

(** The streaming loop does to the world the same whatever the events
    before it, and depends on the server through its logger only. *)
Lemma stream_loop_frame (env : Env) (s s' : ProxyServer.t) (id : string)
  (resp : Response.t) (fuel : nat) :
  ProxyServer.Logger s = ProxyServer.Logger s' ->
  forall src w wd wd',
    tick wd = tick wd' ->
    match stream_loop env s fuel id resp src w wd,
          stream_loop env s' fuel id resp src w wd' with
    | Some (w1, d1), Some (w2, d2) =>
        w1 = w2 /\ tick d1 = tick d2 /\
        exists evs,
          events d1 = (events wd ++ evs)%list /\
          events d2 = (events wd' ++ evs)%list
    | None, None => True
    | _, _ => False
    end.
Proof.
  intros Hl. induction fuel as [|fuel IH]; intros src w wd wd' Ht; simpl; [exact I|].
  destruct (Reader.Read bufferSize src) as [[chunk err] src'].
  rewrite <- Hl.
  assert (Hdone : forall (w0 : ResponseWriter.t) (d d' : World) evs,
             tick d = tick d' ->
             events d = (events wd ++ evs)%list ->
             events d' = (events wd' ++ evs)%list ->
             w0 = w0 /\ tick d = tick d' /\
             exists evs0,
               events d = (events wd ++ evs0)%list /\
               events d' = (events wd' ++ evs0)%list).
  { intros w0 d d' evs Htd He He'. split; [reflexivity|]. split; [exact Htd|].
    now exists evs. }
  assert (Hrec : forall w0 src0 (d d' : World) evs,
             tick d = tick d' ->
             events d = (events wd ++ evs)%list ->
             events d' = (events wd' ++ evs)%list ->
             match stream_loop env s fuel id resp src0 w0 d,
                   stream_loop env s' fuel id resp src0 w0 d' with
             | Some (w1, d1), Some (w2, d2) =>
                 w1 = w2 /\ tick d1 = tick d2 /\
                 exists evs0,
                   events d1 = (events wd ++ evs0)%list /\
                   events d2 = (events wd' ++ evs0)%list
             | None, None => True
             | _, _ => False
             end).
  { intros w0 src0 d d' evs Htd He He'.
    specialize (IH src0 w0 d d' Htd).
    destruct (stream_loop env s fuel id resp src0 w0 d) as [[w1 d1]|];
      destruct (stream_loop env s' fuel id resp src0 w0 d') as [[w2 d2]|];
      try exact IH.
    destruct IH as (Hw & Htt & evs0 & H1 & H2).
    split; [exact Hw|]. split; [exact Htt|].
    exists (evs ++ evs0)%list. rewrite H1, H2, He, He'. now rewrite <- !app_assoc. }
  destruct (0 <? String.length chunk)%nat.
  - destruct (ResponseWriter.Write chunk w) as [w1 [|]].
    + assert (Hev : events (LogResponse env (ProxyServer.Logger s) id resp chunk wd') =
                    (events wd' ++
                     sink_writes (ProxyServer.Logger s)
                       (response_record id (RFC3339 (now env (tick wd))) resp chunk))%list)
        by (rewrite events_LogResponse, Ht; reflexivity).
      assert (Htk : tick (LogResponse env (ProxyServer.Logger s) id resp chunk wd) =
                    tick (LogResponse env (ProxyServer.Logger s) id resp chunk wd'))
        by (simpl; now rewrite Ht).
      destruct err as [[|msg]|].
      * eapply Hdone; [exact Htk | apply events_LogResponse | exact Hev].
      * eapply Hdone; [exact Htk | |]; simpl; rewrite <- app_assoc;
          [reflexivity | rewrite Ht; reflexivity].
      * eapply Hrec; [exact Htk | apply events_LogResponse | exact Hev].
    + eapply Hdone; [exact Ht | reflexivity | reflexivity].
  - destruct err as [[|msg]|].
    + apply (Hdone w wd wd' []); [exact Ht | |]; now rewrite app_nil_r.
    + eapply Hdone; [exact Ht | reflexivity | reflexivity].
    + apply (Hrec w src' wd wd' []); [exact Ht | |]; now rewrite app_nil_r.
Qed.

Lemma relay_response_frame (env : Env) (s s' : ProxyServer.t) (id : string)
  (resp : Response.t) (w : ResponseWriter.t) (wd wd' : World) :
  ProxyServer.Logger s = ProxyServer.Logger s' ->
  Config.LogResponses (ProxyServer.Config s) =
  Config.LogResponses (ProxyServer.Config s') ->
  tick wd = tick wd' ->
  fst (relay_response env s id resp w wd) = fst (relay_response env s' id resp w wd') /\
  exists evs,
    events (snd (relay_response env s id resp w wd)) = (events wd ++ evs)%list /\
    events (snd (relay_response env s' id resp w wd')) = (events wd' ++ evs)%list.
Proof.
  intros Hl Hr Ht. unfold relay_response.
  set (w1 := ResponseWriter.WriteHeader _ _).
  destruct (isStreaming resp).
  - unfold relay_stream. rewrite <- Hr.
    destruct (Config.LogResponses (ProxyServer.Config s)).
    + destruct (ResponseWriter.flusher w1); simpl negb; cbv iota.
      * pose proof (stream_loop_frame env s s' id resp
                      (S (Reader.size (Response.Body resp))) Hl
                      (Response.Body resp) w1 wd wd' Ht) as H.
        destruct (stream_loop env s _ id resp (Response.Body resp) w1 wd)
          as [[wa da]|];
          destruct (stream_loop env s' _ id resp (Response.Body resp) w1 wd')
            as [[wb db]|]; try contradiction.
        -- destruct H as (Hw & _ & evs & H1 & H2). simpl. split; [exact Hw|].
           now exists evs.
        -- simpl. split; [reflexivity|]. exists []. now rewrite !app_nil_r.
      * simpl. split; [reflexivity|]. exists []. now rewrite !app_nil_r.
    + simpl. split; [reflexivity|]. exists []. now rewrite !app_nil_r.
  - unfold relay_buffered. rewrite <- Hr, <- Hl.
    destruct (Reader.ReadAll (Response.Body resp)) as [data [err|]]; simpl.
    + split; [reflexivity|]. eexists. split; reflexivity.
    + split; [reflexivity|].
      destruct (Config.LogResponses (ProxyServer.Config s)).
      * eexists. split; [apply events_LogResponse|].
        rewrite events_LogResponse, Ht. reflexivity.
      * exists []. now rewrite !app_nil_r.
Qed.

(** X18.  The configured upstream credential reaches no log sink and
    no client by the handler's own doing: when the upstream's answer
    does not depend on the headers it is sent, two servers that differ
    in the credential only write the same records and give the client
    the same response, for every request. *)
Theorem credential_never_recorded (env : Env) (s : ProxyServer.t)
  (key1 key2 : string) (w : ResponseWriter.t) (r : Request.t) (wd : World) :
  (forall q1 q2,
     ProxyReq.Method q1 = ProxyReq.Method q2 ->
     ProxyReq.URL q1 = ProxyReq.URL q2 ->
     ProxyReq.Body q1 = ProxyReq.Body q2 ->
     Do env q1 = Do env q2) ->
  records (events (snd (ServeHTTP env (with_key key1 s) w r wd))) =
  records (events (snd (ServeHTTP env (with_key key2 s) w r wd))) /\
  fst (ServeHTTP env (with_key key1 s) w r wd) =
  fst (ServeHTTP env (with_key key2 s) w r wd).
Proof.
  intros Hup. unfold ServeHTTP.
  destruct (assign_request_id env r wd) as [[id r1] wd1].
  destruct (read_request_body r1) as [[bodyBytes r2]|]; [|now split].
  change (Config.LogRequests (ProxyServer.Config (with_key key1 s)))
    with (Config.LogRequests (ProxyServer.Config s)).
  change (Config.LogRequests (ProxyServer.Config (with_key key2 s)))
    with (Config.LogRequests (ProxyServer.Config s)).
  change (ProxyServer.Logger (with_key key1 s)) with (ProxyServer.Logger s).
  change (ProxyServer.Logger (with_key key2 s)) with (ProxyServer.Logger s).
  set (wd2 := if Config.LogRequests (ProxyServer.Config s) then _ else _).
  rewrite !build_proxy_request_spec.
  change (targetURL (with_key key1 s) r2) with (targetURL s r2).
  change (targetURL (with_key key2 s) r2) with (targetURL s r2).
  destruct (NewRequest_error env (Request.Method r2) (targetURL s r2));
    [now split|].
  set (q1 := {| ProxyReq.Method := _; ProxyReq.URL := _;
                ProxyReq.Header := outbound_header
                  (Config.OpenAIAPIKey (ProxyServer.Config (with_key key1 s))) _;
                ProxyReq.Body := _ |}).
  set (q2 := {| ProxyReq.Method := _; ProxyReq.URL := _;
                ProxyReq.Header := outbound_header
                  (Config.OpenAIAPIKey (ProxyServer.Config (with_key key2 s))) _;
                ProxyReq.Body := _ |}).
  rewrite (Hup q1 q2 eq_refl eq_refl eq_refl).
  destruct (Do env q2) as [err|resp].
  - simpl. now rewrite !records_app.
  - destruct (relay_response_frame env (with_key key1 s) (with_key key2 s) id resp w
                (emit [EvDo q1] wd2) (emit [EvDo q2] wd2)
                eq_refl eq_refl eq_refl) as (Hw & evs & H1 & H2).
    split; [|exact Hw].
    rewrite H1, H2. simpl. now rewrite !records_app.
Qed.

Lemma credential_never_recorded_witness :
  records
    (events
       (snd (ServeHTTP (Sample.env_of Sample.sse) (with_key "sk-one" (Sample.server true))
               (ResponseWriter.fresh true None) (Sample.request []) start))) =
  records
    (events
       (snd (ServeHTTP (Sample.env_of Sample.sse) (with_key "sk-two" (Sample.server true))
               (ResponseWriter.fresh true None) (Sample.request []) start))).
Proof.
  apply (credential_never_recorded (Sample.env_of Sample.sse) (Sample.server true)
           "sk-one" "sk-two" (ResponseWriter.fresh true None) (Sample.request [])
           start).
  intros q1 q2 _ _ _. reflexivity.
Defined.
